(** * News chatbot backend: session log, context builder and RAG orchestration

    A shallow embedding of the backend services of the news chatbot
    (chatbot.service.js, session.service.js, redis.service.js) together with
    the properties its specification states about them.

    Conventions of the embedding:
    - a JavaScript string is a [string]: a sequence of code units, restricted
      here to the 8-bit range (Latin-1);
    - a value that may be [undefined] or [null] is an [option];
    - a JavaScript array is a [list]; reading past its end gives [None];
    - a function that may throw returns a [Result];
    - an [async] method of a service is a function from the state of the
      process and of its collaborators ([World]) to a result and a new
      state;
    - what the services print on the console is left out. *)

From Stdlib Require Import ZArith QArith Ascii String.
From stdpp Require Import base option list strings gmap.

(** ** JavaScript values and built-ins used by the services *)

Inductive JsError : Type :=
  | TypeError (msg : string)
  | Error (msg : string).

Inductive Result (A : Type) : Type :=
  | Ok (a : A)
  | Throw (e : JsError).
Arguments Ok {A} a.
Arguments Throw {A} e.

Module Js.

Definition LF : ascii := "010"%char.

(** [x || d] on a possibly missing string: the empty string is falsy. *)
Definition truthy (x : option string) : bool :=
  match x with
  | Some EmptyString => false
  | Some _ => true
  | None => false
  end.

Definition orElse (x : option string) (d : string) : string :=
  match x with
  | Some s => if truthy x then s else d
  | None => d
  end.

(** [parseInt(v) || d]: [None] stands for [NaN]. *)
Definition intOr (v : option Z) (d : Z) : Z :=
  match v with
  | Some 0%Z => d
  | Some z => z
  | None => d
  end.

(** White space and line terminators of [String.prototype.trim], among the
    code units below 256. *)
Definition isWhiteSpace (c : ascii) : bool :=
  let n := nat_of_ascii c in
  ((9 <=? n) && (n <=? 13)) || (n =? 32) || (n =? 160).

Fixpoint trimStart (s : string) : string :=
  match s with
  | EmptyString => EmptyString
  | String c s' => if isWhiteSpace c then trimStart s' else s
  end.

Fixpoint trimEnd (s : string) : string :=
  match s with
  | EmptyString => EmptyString
  | String c s' =>
      match trimEnd s' with
      | EmptyString => if isWhiteSpace c then EmptyString else String c EmptyString
      | r => String c r
      end
  end.

Definition trim (s : string) : string := trimEnd (trimStart s).

(** [s.startsWith(p)] *)
Definition startsWith (s p : string) : bool := String.prefix p s.

Fixpoint dropChars (n : nat) (s : string) : string :=
  match n, s with
  | O, _ => s
  | S n', String _ s' => dropChars n' s'
  | S _, EmptyString => EmptyString
  end.

(** [s.replace(pat, rep)] with a string pattern: the first occurrence only. *)
Fixpoint replace (pat rep s : string) : string :=
  if String.prefix pat s then rep +:+ dropChars (String.length pat) s
  else match s with
       | EmptyString => EmptyString
       | String c s' => String c (replace pat rep s')
       end.

(** [s.split(sep)] for a separator of one code unit. *)
Fixpoint split (sep : ascii) (s : string) : list string :=
  match s with
  | EmptyString => [EmptyString]
  | String c s' =>
      if Ascii.eqb c sep then EmptyString :: split sep s'
      else match split sep s' with
           | h :: t => String c h :: t
           | [] => [String c EmptyString]
           end
  end.

(** [a.join(sep)] *)
Fixpoint join (sep : string) (a : list string) : string :=
  match a with
  | [] => EmptyString
  | [x] => x
  | x :: rest => x +:+ sep +:+ join sep rest
  end.

(** [a.slice(start)]: a negative [start] counts from the end. *)
Definition slice {A : Type} (start : Z) (a : list A) : list A :=
  let len := Z.of_nat (length a) in
  let k := if (start <? 0)%Z then Z.max (len + start) 0 else Z.min start len in
  drop (Z.to_nat k) a.

Definition concat (l : list string) : string :=
  foldr String.append EmptyString l.

End Js.

(** ** Context builder and citation extractor (chatbot.service.js) *)

Record Metadata : Type := mkMetadata {
  meta_title : option string;
  meta_source : option string;
  meta_url : option string
}.

(** The raw result of a vector query: one row per query embedding. *)
Record SearchResults : Type := mkSearchResults {
  documents : option (list (list (option string)));
  metadatas : option (list (list (option Metadata)));
  distances : option (list (list (option Q)))
}.

(** [x?.[0] || []] *)
Definition firstRow {A : Type} (x : option (list (list A))) : list A :=
  match x with
  | Some (row :: _) => row
  | _ => []
  end.

(** [distance > 0.8], a distance being read as the rational it denotes; the
    comparison is false on [undefined]. *)
Definition tooFar (distance : option Q) : bool :=
  match distance with
  | Some d => negb (Qle_bool d (8 # 10))
  | None => false
  end.

(** A template literal prints [null] for a missing document. *)
Definition showDoc (doc : option string) : string :=
  match doc with
  | Some s => s
  | None => "null"
  end.

Definition docContext (meta : Metadata) (doc : option string) : string :=
  String Js.LF ("Title: " +:+ Js.orElse (meta_title meta) "Unknown" +:+
  String Js.LF ("Source: " +:+ Js.orElse (meta_source meta) "Unknown" +:+
  String Js.LF ("URL: " +:+ Js.orElse (meta_url meta) "N/A" +:+
  String Js.LF ("Content: " +:+ showDoc doc +:+
  String Js.LF "---")))).

Definition strlen (s : string) : Z := Z.of_nat (String.length s).

(** The [for] loop of [buildContext]: [n] iterations are left, [i] is the
    loop index. Reading a field of a missing metadata entry throws. *)
Fixpoint buildContext_loop (docs : list (option string))
    (metas : list (option Metadata)) (dists : list (option Q))
    (maxLength : Z) (n i : nat) (context : string) (currentLength : Z)
    : Result string :=
  match n with
  | O => Ok context
  | S n' =>
      match docs !! i with
      | None => Ok context
      | Some doc =>
          let meta := mjoin (metas !! i) in
          let distance := mjoin (dists !! i) in
          if tooFar distance then
            buildContext_loop docs metas dists maxLength n' (S i) context currentLength
          else
            match meta with
            | None => Throw (TypeError "Cannot read properties of undefined")
            | Some m =>
                let block := docContext m doc in
                if (currentLength + strlen block >? maxLength)%Z then Ok context
                else buildContext_loop docs metas dists maxLength n' (S i)
                       (context +:+ block) (currentLength + strlen block)
            end
      end
  end.

Definition buildContext (searchResults : SearchResults) (maxLength : Z)
    : Result string :=
  let docs := firstRow (documents searchResults) in
  let metas := firstRow (metadatas searchResults) in
  let dists := firstRow (distances searchResults) in
  match buildContext_loop docs metas dists maxLength (length docs) 0 EmptyString 0 with
  | Ok context => Ok (Js.trim context)
  | Throw e => Throw e
  end.

(** An entry of the [sources] array; [currentSource] starts with no field. *)
Record Source : Type := mkSource {
  src_title : option string;
  src_source : option string;
  src_url : option string
}.

Definition noSource : Source := mkSource None None None.

Definition extractSources_step (st : list Source * Source) (line : string)
    : list Source * Source :=
  let '(sources, currentSource) := st in
  if Js.startsWith line "Title: " then
    (sources, mkSource (Some (Js.replace "Title: " EmptyString line))
                       (src_source currentSource) (src_url currentSource))
  else if Js.startsWith line "Source: " then
    (sources, mkSource (src_title currentSource)
                       (Some (Js.replace "Source: " EmptyString line))
                       (src_url currentSource))
  else if Js.startsWith line "URL: " then
    let filled := mkSource (src_title currentSource) (src_source currentSource)
                           (Some (Js.replace "URL: " EmptyString line)) in
    if Js.truthy (src_title filled) && Js.truthy (src_source filled)
    then (sources ++ [filled], noSource)
    else (sources, noSource)
  else st.

(** The [for] loop over the lines, from no source and an empty [currentSource]. *)
Definition scan (lines : list string) : list Source * Source :=
  fold_left extractSources_step lines ([], noSource).

Definition extractSources (context : string) : list Source :=
  fst (scan (Js.split Js.LF context)).

(** *** The ranked passages, as the loop of [buildContext] reads them

    The loop reads the three parallel arrays at the same index; [passages]
    pairs them up, and [accumulate] is the same loop over the pairs. *)

Record Passage : Type := mkPassage {
  p_doc : option string;
  p_meta : option Metadata;
  p_distance : option Q
}.

Fixpoint zipFrom (metas : list (option Metadata)) (dists : list (option Q))
    (i : nat) (docs : list (option string)) : list Passage :=
  match docs with
  | [] => []
  | doc :: docs' =>
      mkPassage doc (mjoin (metas !! i)) (mjoin (dists !! i))
        :: zipFrom metas dists (S i) docs'
  end.

Definition passages (r : SearchResults) : list Passage :=
  zipFrom (firstRow (metadatas r)) (firstRow (distances r)) 0
          (firstRow (documents r)).

Definition ofPassages (ps : list Passage) : SearchResults :=
  mkSearchResults (Some [map p_doc ps]) (Some [map p_meta ps])
                  (Some [map p_distance ps]).

(** The block of a passage; the loop throws before formatting a passage
    that has no metadata, the empty text stands for that case. *)
Definition blockOf (p : Passage) : string :=
  match p_meta p with
  | Some m => docContext m (p_doc p)
  | None => EmptyString
  end.

Definition near (p : Passage) : bool := negb (tooFar (p_distance p)).

Fixpoint accumulate (ps : list Passage) (maxLength : Z) (context : string)
    (currentLength : Z) : Result string :=
  match ps with
  | [] => Ok context
  | p :: ps' =>
      if tooFar (p_distance p) then accumulate ps' maxLength context currentLength
      else
        match p_meta p with
        | None => Throw (TypeError "Cannot read properties of undefined")
        | Some m =>
            let block := docContext m (p_doc p) in
            if (currentLength + strlen block >? maxLength)%Z then Ok context
            else accumulate ps' maxLength (context +:+ block)
                   (currentLength + strlen block)
        end
  end.

(** The passages whose block the loop appends to the context. *)
Fixpoint includedFrom (ps : list Passage) (maxLength currentLength : Z)
    : list Passage :=
  match ps with
  | [] => []
  | p :: ps' =>
      if tooFar (p_distance p) then includedFrom ps' maxLength currentLength
      else
        match p_meta p with
        | None => []
        | Some m =>
            let block := docContext m (p_doc p) in
            if (currentLength + strlen block >? maxLength)%Z then []
            else p :: includedFrom ps' maxLength (currentLength + strlen block)
        end
  end.

Definition included (r : SearchResults) (maxLength : Z) : list Passage :=
  includedFrom (passages r) maxLength 0.

Definition totalLength (blocks : list string) : Z :=
  foldr (fun b acc => (strlen b + acc)%Z) 0%Z blocks.

(** The citation that the block of a passage spells out. *)
Definition citationOf (p : Passage) : Source :=
  match p_meta p with
  | Some m => mkSource (Some (Js.orElse (meta_title m) "Unknown"))
                       (Some (Js.orElse (meta_source m) "Unknown"))
                       (Some (Js.orElse (meta_url m) "N/A"))
  | None => noSource
  end.

Definition hasLF (s : string) : bool :=
  existsb (Ascii.eqb Js.LF) (list_ascii_of_string s).

(** A passage whose block reads back unambiguously: no line break inside the
    three printed fields, and no line of the text after its first one looks
    like a URL field (the first line is printed behind the content field). *)
Definition plainPassage (p : Passage) : bool :=
  match p_meta p with
  | Some m =>
      negb (hasLF (Js.orElse (meta_title m) "Unknown"))
      && negb (hasLF (Js.orElse (meta_source m) "Unknown"))
      && negb (hasLF (Js.orElse (meta_url m) "N/A"))
      && forallb (fun line => negb (Js.startsWith line "URL: "))
                 (tail (Js.split Js.LF (showDoc (p_doc p))))
  | None => false
  end.

(** The lines read since the last line that starts with the URL field. *)
Definition sinceUrl (lines : list string) : list string :=
  fold_left (fun seg line => if Js.startsWith line "URL: " then [] else seg ++ [line])
            lines [].

(** ** The process and its collaborators *)

(** [usageMetadata] of a reply of the hosted model. *)
Record UsageMetadata : Type := mkUsage {
  promptTokenCount : Z;
  candidatesTokenCount : Z;
  totalTokenCount : Z
}.

(** The [metadata] of a message: [{}] or [{sources, tokensUsed}]. *)
Record MessageMeta : Type := mkMessageMeta {
  mm_sources : option (list Source);
  mm_tokensUsed : option UsageMetadata
}.

Definition emptyMeta : MessageMeta := mkMessageMeta None None.

Record Message : Type := mkMessage {
  role : string;
  content : string;
  metadata : MessageMeta;
  id : string;
  timestamp : option string
}.

(** [{...message, timestamp: t}] *)
Definition withTimestamp (message : Message) (t : string) : Message :=
  mkMessage (role message) (content message) (metadata message) (id message) (Some t).

(** A turn of the conversation as the prompt sees it: [{role, content}]. *)
Record Turn : Type := mkTurn {
  turn_role : string;
  turn_content : string
}.

(** The reply of [processQuery]: [{content, sources, tokensUsed}]. *)
Record Answer : Type := mkAnswer {
  ans_content : string;
  ans_sources : list Source;
  ans_tokensUsed : option UsageMetadata
}.

(** Calls that leave the process, in the order they are made. *)
Inductive Call : Type :=
  | CallPipeline
  | CallEmbed (query : string)
  | CallGetCollection
  | CallQuery (queryEmbedding : list Q) (n_results : Z)
  | CallGenerate (prompt : string).

(** The services outside the process and the settings of its environment.
    A call to a service either resolves or rejects. *)
Class Collaborators : Type := {
  md5hex : string -> string;
  uuidv4 : nat -> string;
  pipeline : Result unit;
  embedder : string -> Result (list Q);
  chromaGetCollection : Result unit;
  collectionQuery : list Q -> Z -> Result SearchResults;
  generateContent : string -> Result (string * option UsageMetadata);
  env_TOP_K_RESULTS : option Z;
  env_MAX_CONTEXT_LENGTH : option Z;
  env_SESSION_TTL : option Z
}.

(** The state the services share. [isConnected] is the flag that the cache
    service keeps; [clientReady] tells whether the cache serves the commands
    of the client (they reject otherwise). The two maps are the two key spaces
    of the cache, [session:<id>] and [query:<hash>]; a value is kept with the
    expiry it was written with. Serialising a value and parsing it back is
    taken to give the value again. [embedderLoaded] and [chromaClient] tell
    whether the two module variables are set, [now] is the reading of the
    clock, [uuids] counts the identifiers drawn so far, and [calls] logs the
    calls made to the collaborators. *)
Record World : Type := mkWorld {
  isConnected : bool;
  clientReady : bool;
  sessions : gmap string (Z * list Message);
  queries : gmap string (Z * SearchResults);
  embedderLoaded : bool;
  chromaClient : bool;
  now : string;
  uuids : nat;
  calls : list Call
}.

Definition M (A : Type) : Type := World -> Result A * World.

Definition ret {A : Type} (a : A) : M A := fun w => (Ok a, w).

Definition throw {A : Type} (e : JsError) : M A := fun w => (Throw e, w).

Definition bind {A B : Type} (m : M A) (f : A -> M B) : M B :=
  fun w => match m w with
           | (Ok a, w') => f a w'
           | (Throw e, w') => (Throw e, w')
           end.

(** [try { m } catch (error) { h error }] *)
Definition tryCatch {A : Type} (m : M A) (h : JsError -> M A) : M A :=
  fun w => match m w with
           | (Ok a, w') => (Ok a, w')
           | (Throw e, w') => h e w'
           end.

Definition gets {A : Type} (f : World -> A) : M A := fun w => (Ok (f w), w).

Definition modify (f : World -> World) : M unit := fun w => (Ok tt, f w).

(** A call to a collaborator is logged, then resolves or rejects. *)
Definition call {A : Type} (c : Call) (r : Result A) : M A :=
  fun w => (r, mkWorld (isConnected w) (clientReady w) (sessions w) (queries w)
                       (embedderLoaded w) (chromaClient w) (now w) (uuids w)
                       (calls w ++ [c])).

Declare Scope js_scope.
Delimit Scope js_scope with js.
Notation "x <- m ;; k" := (bind m (fun x => k))
  (at level 100, m at next level, right associativity) : js_scope.
Notation "m ;;; k" := (bind m (fun _ => k))
  (at level 100, right associativity) : js_scope.
Open Scope js_scope.

Definition setSessions (s : gmap string (Z * list Message)) (w : World) : World :=
  mkWorld (isConnected w) (clientReady w) s (queries w)
          (embedderLoaded w) (chromaClient w) (now w) (uuids w) (calls w).

Definition setQueries (q : gmap string (Z * SearchResults)) (w : World) : World :=
  mkWorld (isConnected w) (clientReady w) (sessions w) q
          (embedderLoaded w) (chromaClient w) (now w) (uuids w) (calls w).

Definition setEmbedderLoaded (w : World) : World :=
  mkWorld (isConnected w) (clientReady w) (sessions w) (queries w)
          true (chromaClient w) (now w) (uuids w) (calls w).

Definition setChromaClient (w : World) : World :=
  mkWorld (isConnected w) (clientReady w) (sessions w) (queries w)
          (embedderLoaded w) true (now w) (uuids w) (calls w).

Definition setUuids (n : nat) (w : World) : World :=
  mkWorld (isConnected w) (clientReady w) (sessions w) (queries w)
          (embedderLoaded w) (chromaClient w) (now w) n (calls w).

(** *** Commands of the cache client: they reject while it is not ready *)

Definition clientClosed : JsError := Error "The client is closed".

Definition client_get_session (sessionId : string) : M (option (list Message)) :=
  fun w => if clientReady w then (Ok (snd <$> sessions w !! sessionId), w)
           else (Throw clientClosed, w).

Definition client_setEx_session (sessionId : string) (ttl : Z)
    (value : list Message) : M unit :=
  fun w => if clientReady w
           then (Ok tt, setSessions (<[sessionId := (ttl, value)]> (sessions w)) w)
           else (Throw clientClosed, w).

Definition client_del_session (sessionId : string) : M Z :=
  fun w => if clientReady w
           then match sessions w !! sessionId with
                | Some _ => (Ok 1%Z, setSessions (delete sessionId (sessions w)) w)
                | None => (Ok 0%Z, w)
                end
           else (Throw clientClosed, w).

Definition client_get_query (queryHash : string) : M (option SearchResults) :=
  fun w => if clientReady w then (Ok (snd <$> queries w !! queryHash), w)
           else (Throw clientClosed, w).

Definition client_setEx_query (queryHash : string) (ttl : Z)
    (value : SearchResults) : M unit :=
  fun w => if clientReady w
           then (Ok tt, setQueries (<[queryHash := (ttl, value)]> (queries w)) w)
           else (Throw clientClosed, w).

(** ** redis.service.js *)

Definition getSessionHistory (sessionId : string) : M (list Message) :=
  tryCatch
    (connected <- gets isConnected ;;
     if negb connected then ret []
     else
       history <- client_get_session sessionId ;;
       ret (match history with Some h => h | None => [] end))
    (fun _ => ret []).

Definition addToSessionHistory `{Collaborators} (sessionId : string)
    (message : Message) : M (list Message) :=
  tryCatch
    (connected <- gets isConnected ;;
     if negb connected then ret []
     else
       history <- getSessionHistory sessionId ;;
       t <- gets now ;;
       let messageWithTimestamp := withTimestamp message t in
       let history := history ++ [messageWithTimestamp] in
       let trimmedHistory := Js.slice (-50) history in
       let ttl := Js.intOr env_SESSION_TTL 86400 in
       client_setEx_session sessionId ttl trimmedHistory ;;;
       ret trimmedHistory)
    (fun error => throw error).

Definition clearSession (sessionId : string) : M bool :=
  tryCatch
    (connected <- gets isConnected ;;
     if negb connected then ret false
     else
       result <- client_del_session sessionId ;;
       ret (result >? 0)%Z)
    (fun _ => ret false).

Definition cacheQuery (queryHash : string) (results : SearchResults) (ttl : Z)
    : M unit :=
  tryCatch
    (connected <- gets isConnected ;;
     if negb connected then ret tt
     else client_setEx_query queryHash ttl results)
    (fun _ => ret tt).

Definition getCachedQuery (queryHash : string) : M (option SearchResults) :=
  tryCatch
    (connected <- gets isConnected ;;
     if negb connected then ret None
     else
       cached <- client_get_query queryHash ;;
       ret cached)
    (fun _ => ret None).

(** ** session.service.js *)

Definition sessionIdRequired : JsError := Error "Session ID is required".

(** [!sessionId] *)
Definition missing (sessionId : string) : bool :=
  match sessionId with EmptyString => true | _ => false end.

Definition getHistory (sessionId : string) : M (list Message) :=
  if missing sessionId then throw sessionIdRequired
  else getSessionHistory sessionId.

Definition addMessage `{Collaborators} (sessionId role content : string)
    (metadata : MessageMeta) : M (list Message) :=
  if missing sessionId then throw sessionIdRequired
  else
    n <- gets uuids ;;
    modify (setUuids (S n)) ;;;
    let message := mkMessage role content metadata (uuidv4 n) None in
    addToSessionHistory sessionId message.

Definition getContextForRAG (sessionId : string) (maxMessages : Z) : M (list Turn) :=
  history <- getHistory sessionId ;;
  let recentMessages := Js.slice (- maxMessages) history in
  ret (map (fun msg => mkTurn (role msg) (content msg)) recentMessages).

(** ** chatbot.service.js: retrieval, generation and the chat pipeline *)

Definition TOP_K `{Collaborators} : Z := Js.intOr env_TOP_K_RESULTS 5.

Definition MAX_CONTEXT_LENGTH `{Collaborators} : Z :=
  Js.intOr env_MAX_CONTEXT_LENGTH 4000.

Definition loadEmbedder `{Collaborators} : M unit :=
  loaded <- gets embedderLoaded ;;
  if negb loaded then
    call CallPipeline pipeline ;;;
    modify setEmbedderLoaded
  else ret tt.

Definition getCollection `{Collaborators} : M unit :=
  created <- gets chromaClient ;;
  (if negb created then modify setChromaClient else ret tt) ;;;
  call CallGetCollection chromaGetCollection.

Definition searchChroma `{Collaborators} (query : string) : M SearchResults :=
  tryCatch
    (let queryHash := md5hex query in
     cached <- getCachedQuery queryHash ;;
     match cached with
     | Some results => ret results
     | None =>
         loadEmbedder ;;;
         queryEmbedding <- call (CallEmbed query) (embedder query) ;;
         getCollection ;;;
         results <- call (CallQuery queryEmbedding TOP_K)
                         (collectionQuery queryEmbedding TOP_K) ;;
         cacheQuery queryHash results 3600 ;;;
         ret results
     end)
    (fun _ => throw (Error "Failed to search knowledge base")).

Definition NL : string := String Js.LF EmptyString.

Definition showTurn (msg : Turn) : string :=
  (if String.eqb (turn_role msg) "user" then "User" else "Assistant")
  +:+ ": " +:+ turn_content msg.

Definition conversationContext (conversationHistory : list Turn) : string :=
  match conversationHistory with
  | [] => EmptyString
  | _ => NL +:+ NL +:+ "Previous conversation:" +:+ NL +:+
         Js.join NL (map showTurn (Js.slice (-3) conversationHistory))
  end.

Definition buildPrompt (query context : string) (conversationHistory : list Turn)
    : string :=
  Js.concat
    [ "You are a helpful news assistant. Answer the user's question using ONLY the provided news context. Be accurate, concise, and cite sources when possible.";
      NL; NL;
      "News Context:"; NL;
      context; NL;
      conversationContext conversationHistory; NL; NL;
      "User Question: "; query; NL; NL;
      "Instructions:"; NL;
      "- Only use information from the provided context"; NL;
      "- If the context doesn't contain relevant information, say so clearly"; NL;
      "- Cite sources (title/source) when referencing specific articles"; NL;
      "- Be conversational but informative"; NL;
      "- Keep responses focused and relevant" ].

Definition generateResponse `{Collaborators} (query context : string)
    (conversationHistory : list Turn) : M Answer :=
  tryCatch
    (let prompt := buildPrompt query context conversationHistory in
     reply <- call (CallGenerate prompt) (generateContent prompt) ;;
     ret (mkAnswer (fst reply) (extractSources context) (snd reply)))
    (fun _ => throw (Error "Failed to generate response")).

Definition nothingFound : string :=
  "I couldn't find any relevant information in the news database to answer your question. Please try rephrasing your query or ask about different topics.".

Definition notCloselyRelated : string :=
  "I found some potentially relevant articles, but they don't seem closely related to your question. Could you try asking about something more specific?".

(** A synchronous function that may throw, run inside an [async] one. *)
Definition lift {A : Type} (r : Result A) : M A := fun w => (r, w).

Definition processQuery `{Collaborators} (query : string)
    (conversationHistory : list Turn) : M Answer :=
  tryCatch
    (searchResults <- searchChroma query ;;
     match firstRow (documents searchResults) with
     | [] => ret (mkAnswer nothingFound [] None)
     | _ :: _ =>
         context <- lift (buildContext searchResults MAX_CONTEXT_LENGTH) ;;
         match context with
         | EmptyString => ret (mkAnswer notCloselyRelated [] None)
         | String _ _ =>
             response <- generateResponse query context conversationHistory ;;
             ret response
         end
     end)
    (fun error => throw error).

(** The number of calls made to the hosted model so far. *)
Definition isGenerate (c : Call) : bool :=
  match c with CallGenerate _ => true | _ => false end.

Definition generations (w : World) : nat :=
  length (filter (fun c => isGenerate c = true) (calls w)).

(** ** Histories of one process *)

(** What happens to the session store over time: calls of the services, and
    changes that come from outside (the link to the cache going up or down,
    the clock, a key reaching its expiry). *)
Inductive Event : Type :=
  | EvAppend (sessionId : string) (message : Message)
  | EvAddMessage (sessionId role content : string) (metadata : MessageMeta)
  | EvClear (sessionId : string)
  | EvExpire (sessionId : string)
  | EvLink (connected ready : bool)
  | EvClock (t : string).

Definition setLink (connected ready : bool) (w : World) : World :=
  mkWorld connected ready (sessions w) (queries w)
          (embedderLoaded w) (chromaClient w) (now w) (uuids w) (calls w).

Definition setNow (t : string) (w : World) : World :=
  mkWorld (isConnected w) (clientReady w) (sessions w) (queries w)
          (embedderLoaded w) (chromaClient w) t (uuids w) (calls w).

Definition stepWorld `{Collaborators} (w : World) (ev : Event) : World :=
  match ev with
  | EvAppend sessionId message => snd (addToSessionHistory sessionId message w)
  | EvAddMessage sessionId role content metadata =>
      snd (addMessage sessionId role content metadata w)
  | EvClear sessionId => snd (clearSession sessionId w)
  | EvExpire sessionId => setSessions (delete sessionId (sessions w)) w
  | EvLink connected ready => setLink connected ready w
  | EvClock t => setNow t w
  end.

Definition runEvents `{Collaborators} (events : list Event) (w : World) : World :=
  fold_left stepWorld events w.

(** The process as it starts: nothing connected, nothing stored. *)
Definition startup : World :=
  mkWorld false false ∅ ∅ false false "1970-01-01T00:00:00.000Z" 0 [].

Definition storedLog (sessionId : string) (w : World) : list Message :=
  match sessions w !! sessionId with
  | Some (_, log) => log
  | None => []
  end.

(** The message that a call asks to append to a session, with the time stamp
    (and, through [addMessage], the identifier) that the code gives it. A call
    of [addMessage] without session identifier is refused before it reaches
    [addToSessionHistory]. *)
Definition requestedBy `{Collaborators} (sessionId : string) (ev : Event) (w : World)
    : list Message :=
  match ev with
  | EvAppend s message =>
      if String.eqb s sessionId then [withTimestamp message (now w)] else []
  | EvAddMessage s role content metadata =>
      if String.eqb s sessionId && negb (missing s)
      then [mkMessage role content metadata (uuidv4 (uuids w)) (Some (now w))]
      else []
  | _ => []
  end.

(** Every message that the calls of a history ask to append to a session,
    oldest first, whatever the state of the link when the call is made. *)
Fixpoint fullHistory `{Collaborators} (sessionId : string)
    (events : list Event) (w : World) : list Message :=
  match events with
  | [] => []
  | ev :: events' =>
      requestedBy sessionId ev w ++ fullHistory sessionId events' (stepWorld w ev)
  end.

(** The message that one event appends to a session: the one its call asks
    for when the call is made with the link up (the flag of the service set
    and the client taking commands), none otherwise. *)
Definition appendedBy `{Collaborators} (sessionId : string) (ev : Event) (w : World)
    : list Message :=
  if isConnected w && clientReady w then requestedBy sessionId ev w else [].

(** The messages appended to a session over a history, oldest first: those of
    the calls made while the link was up. *)
Fixpoint logicalHistory `{Collaborators} (sessionId : string)
    (events : list Event) (w : World) : list Message :=
  match events with
  | [] => []
  | ev :: events' =>
      appendedBy sessionId ev w ++ logicalHistory sessionId events' (stepWorld w ev)
  end.

Definition isAppend (ev : Event) : bool :=
  match ev with
  | EvAppend _ _ | EvAddMessage _ _ _ _ => true
  | _ => false
  end.

(** Every call of the history that appends finds the link up. *)
Fixpoint callsFindLinkUp `{Collaborators} (events : list Event) (w : World) : bool :=
  match events with
  | [] => true
  | ev :: events' =>
      (if isAppend ev then isConnected w && clientReady w else true)
      && callsFindLinkUp events' (stepWorld w ev)
  end.

(** *** Sample data *)

Definition demoResults : SearchResults :=
  mkSearchResults
    (Some [[Some "AI news"; Some "Weather"; Some "Sports"]])
    (Some [[Some (mkMetadata (Some "T1") (Some "S1") (Some "U1"));
            None;
            Some (mkMetadata (Some "T3") None None)]])
    (Some [[Some (1 # 10); Some (9 # 10); Some (5 # 10)]]).

(** Collaborators that always resolve; the vector store answers [results]. *)
Definition collaboratorsReturning (results : SearchResults) : Collaborators := {|
  md5hex := fun q => "h:" +:+ q;
  uuidv4 := fun n => "id";
  pipeline := Ok tt;
  embedder := fun q => Ok [1 # 2];
  chromaGetCollection := Ok tt;
  collectionQuery := fun e n => Ok results;
  generateContent := fun p => Ok ("answer", None);
  env_TOP_K_RESULTS := None;
  env_MAX_CONTEXT_LENGTH := None;
  env_SESSION_TTL := None
|}.

Definition demoCollaborators : Collaborators := collaboratorsReturning demoResults.

(** No passage at all, and passages that are all too far. *)
Definition emptyResults : SearchResults :=
  mkSearchResults (Some [[]]) (Some [[]]) (Some [[]]).

Definition farResults : SearchResults :=
  mkSearchResults
    (Some [[Some "Weather"]])
    (Some [[Some (mkMetadata (Some "T") (Some "S") (Some "U"))]])
    (Some [[Some (9 # 10)]]).

(** One passage whose text quotes the fields of another article. *)
Definition quotingResults : SearchResults :=
  mkSearchResults
    (Some [[Some (Js.join NL ["Reuters ran the story first."; "Title: Old story";
                              "Source: Reuters"; "URL: http://reuters.example/old"])]])
    (Some [[Some (mkMetadata (Some "New story") (Some "Daily")
                             (Some "http://daily.example/new"))]])
    (Some [[Some (2 # 10)]]).

Definition linkUp : World := setLink true true startup.

Definition sampleText (n : nat) : string := String (ascii_of_nat (48 + n)) EmptyString.

Definition sampleMessage (n : nat) : Message :=
  mkMessage "user" (sampleText n) emptyMeta "id" None.

(** The link comes up, then [n] messages are added to session [s]. *)
Definition sampleEvents (n : nat) : list Event :=
  EvLink true true
    :: map (fun k => EvAddMessage "s" "user" (sampleText k) emptyMeta) (seq 0 n).

(** The link is up, goes down and comes back; one message is sent to session
    [s] in each of the three periods. *)
Definition interruptedEvents : list Event :=
  [EvLink true true; EvAppend "s" (sampleMessage 1);
   EvLink false false; EvAppend "s" (sampleMessage 2);
   EvLink true true; EvAppend "s" (sampleMessage 3)].

Definition turnOf (msg : Message) : Turn := mkTurn (role msg) (content msg).

(** ** Further operations of the services *)

(** *** redis.service.js: monitoring *)

(** [client.keys('session:*')] and [client.keys('query:*')] *)
Definition client_keys_sessions : M (list string) :=
  fun w => if clientReady w then (Ok (map fst (map_to_list (sessions w))), w)
           else (Throw clientClosed, w).

Definition client_keys_queries : M (list string) :=
  fun w => if clientReady w then (Ok (map fst (map_to_list (queries w))), w)
           else (Throw clientClosed, w).

Definition getSessionCount : M nat :=
  tryCatch
    (connected <- gets isConnected ;;
     if negb connected then ret 0
     else
       keys <- client_keys_sessions ;;
       ret (length keys))
    (fun _ => ret 0).

Definition getQueryCacheCount : M nat :=
  tryCatch
    (connected <- gets isConnected ;;
     if negb connected then ret 0
     else
       keys <- client_keys_queries ;;
       ret (length keys))
    (fun _ => ret 0).

(** [this.isConnected && this.client && this.client.isReady] *)
Definition isHealthy (w : World) : bool := isConnected w && clientReady w.

(** *** session.service.js *)

(** [{messageCount, totalMessages, startTime, lastActivity}]; the statistics of
    a session without history have no [totalMessages]. *)
Record SessionStats : Type := mkSessionStats {
  messageCount : nat;
  totalMessages : option nat;
  startTime : option string;
  lastActivity : option string
}.

Module SessionService.

Definition generateSessionId `{Collaborators} : M string :=
  n <- gets uuids ;;
  modify (setUuids (S n)) ;;;
  ret (uuidv4 n).

Definition clearSession (sessionId : string) : M bool :=
  if missing sessionId then throw sessionIdRequired
  else clearSession sessionId.

(** [getSessionStats], as the copy of the session service kept at the end of
    redis.service.js defines it; session.service.js itself has no method of
    that name. *)
Definition getSessionStats (sessionId : string) : M SessionStats :=
  history <- getHistory sessionId ;;
  match history with
  | [] => ret (mkSessionStats 0 None None None)
  | _ :: _ =>
      let userMessages := List.filter (fun msg => String.eqb (role msg) "user") history in
      let startTime := head history ≫= timestamp in
      let lastActivity := last history ≫= timestamp in
      ret (mkSessionStats (length userMessages) (Some (length history))
                          startTime lastActivity)
  end.

Definition sessionExists (sessionId : string) : M bool :=
  history <- getHistory sessionId ;;
  ret (0 <? length history).

End SessionService.

(** *** chatbot.service.js: health check *)

(** [{status, error, timestamp}] *)
Record Health : Type := mkHealth {
  health_status : string;
  health_error : option string;
  health_timestamp : string
}.

(** [error.message] *)
Definition messageOf (e : JsError) : string :=
  match e with
  | TypeError m => m
  | Error m => m
  end.

Definition healthCheck `{Collaborators} : M Health :=
  tryCatch
    (loadEmbedder ;;;
     getCollection ;;;
     t <- gets now ;;
     ret (mkHealth "healthy" None t))
    (fun error =>
       t <- gets now ;;
       ret (mkHealth "unhealthy" (Some (messageOf error)) t)).

(** ** chat.routes.js *)

(** The JSON bodies that the handlers send; the uptime and memory figures of
    the process are left out. *)
Inductive Body : Type :=
  | ErrorBody (error code : string) (details : option string)
  | ChatBody (sessionId response : string) (sources : list Source)
             (tokensUsed : option UsageMetadata) (timestamp : string)
             (contextLength : nat)
  | HistoryBody (sessionId : string) (history : list Message) (count : nat)
                (stats : SessionStats)
  | ClearedBody (message sessionId : string)
  | NewSessionBody (sessionId message timestamp : string)
  | HealthBody (status timestamp : string) (chatbot : Health)
               (redisStatus : string) (activeSessions cachedQueries : nat)
  | HealthErrorBody (status error timestamp : string).

Record Response : Type := mkResponse {
  res_status : Z;
  res_body : Body
}.

(** The middleware: [req.params.id || req.body.sessionId], or a 400. *)
Definition validateSession (paramsId bodySessionId : option string)
    : Response + string :=
  let sessionId := if Js.truthy paramsId then paramsId else bodySessionId in
  match sessionId with
  | Some s => if Js.truthy sessionId then inr s
              else inl (mkResponse 400 (ErrorBody "Session ID is required"
                                                  "MISSING_SESSION_ID" None))
  | None => inl (mkResponse 400 (ErrorBody "Session ID is required"
                                           "MISSING_SESSION_ID" None))
  end.

(** [POST /chat], with the body [{message, sessionId}] of the request. *)
Definition postChat `{Collaborators} (NODE_ENV : option string)
    (message sessionId : option string) : M Response :=
  tryCatch
    (match message with
     | Some text =>
         if negb (Js.truthy message && Js.truthy (Some (Js.trim text))) then
           ret (mkResponse 400 (ErrorBody "Message is required" "MISSING_MESSAGE" None))
         else
           currentSessionId <-
             (match sessionId with
              | Some s => if Js.truthy sessionId then ret s
                          else SessionService.generateSessionId
              | None => SessionService.generateSessionId
              end) ;;
           conversationHistory <- getContextForRAG currentSessionId 5 ;;
           addMessage currentSessionId "user" (Js.trim text) emptyMeta ;;;
           response <- processQuery (Js.trim text) conversationHistory ;;
           addMessage currentSessionId "assistant" (ans_content response)
             (mkMessageMeta (Some (ans_sources response)) (ans_tokensUsed response)) ;;;
           t <- gets now ;;
           ret (mkResponse 200
                  (ChatBody currentSessionId (ans_content response)
                            (ans_sources response) (ans_tokensUsed response) t
                            (length conversationHistory)))
     | None =>
         ret (mkResponse 400 (ErrorBody "Message is required" "MISSING_MESSAGE" None))
     end)
    (fun error =>
       ret (mkResponse 500
              (ErrorBody "Failed to process message" "PROCESSING_ERROR"
                 (match NODE_ENV with
                  | Some mode => if String.eqb mode "development"
                                 then Some (messageOf error) else None
                  | None => None
                  end)))).

(** A call of a method that the object does not have: a type error. *)
Definition notAFunction {A : Type} (name : string) : M A :=
  throw (TypeError (name +:+ " is not a function")).

(** [GET /session/:id/history]. The handler calls [getSessionStats] on the
    object exported by session.service.js, which defines no such method. *)
Definition getSessionHistoryRoute (paramsId bodySessionId : option string)
    : M Response :=
  match validateSession paramsId bodySessionId with
  | inl refused => ret refused
  | inr sessionId =>
      tryCatch
        (history <- getHistory sessionId ;;
         stats <- notAFunction (A := SessionStats) "sessionService.getSessionStats" ;;
         ret (mkResponse 200 (HistoryBody sessionId history (length history) stats)))
        (fun _ => ret (mkResponse 500 (ErrorBody "Failed to retrieve session history"
                                                 "HISTORY_ERROR" None)))
  end.

(** [DELETE /session/:id] *)
Definition deleteSessionRoute (paramsId bodySessionId : option string)
    : M Response :=
  match validateSession paramsId bodySessionId with
  | inl refused => ret refused
  | inr sessionId =>
      tryCatch
        (success <- SessionService.clearSession sessionId ;;
         if success then
           ret (mkResponse 200 (ClearedBody "Session cleared successfully" sessionId))
         else
           ret (mkResponse 404 (ErrorBody "Session not found or already cleared"
                                          "SESSION_NOT_FOUND" None)))
        (fun _ => ret (mkResponse 500 (ErrorBody "Failed to clear session"
                                                 "CLEAR_ERROR" None)))
  end.

(** [POST /session/new] *)
Definition postSessionNew `{Collaborators} : M Response :=
  sessionId <- SessionService.generateSessionId ;;
  t <- gets now ;;
  ret (mkResponse 200 (NewSessionBody sessionId "New session created" t)).

(** [GET /health] *)
Definition getHealth `{Collaborators} : M Response :=
  tryCatch
    (chatbotHealth <- healthCheck ;;
     sessionCount <- getSessionCount ;;
     queryCacheCount <- getQueryCacheCount ;;
     healthy <- gets isHealthy ;;
     t <- gets now ;;
     ret (mkResponse 200
            (HealthBody "ok" t chatbotHealth
                        (if healthy then "healthy" else "unhealthy")
                        sessionCount queryCacheCount)))
    (fun error =>
       t <- gets now ;;
       ret (mkResponse 503 (HealthErrorBody "error" (messageOf error) t))).

(** A computation that leaves a part [f] of the state as it is, and one that
    never throws. *)
Definition keeps {A B : Type} (f : World -> B) (m : M A) : Prop :=
  forall w, f (snd (m w)) = f w.

Definition safe {A : Type} (m : M A) : Prop :=
  forall w, exists a, fst (m w) = Ok a.

(** A line that starts with the URL field. *)
Definition isUrlLine (line : string) : bool := Js.startsWith line "URL: ".

(** A passage that is near enough and has no metadata, behind one that has. *)
Definition brokenResults : SearchResults :=
  mkSearchResults
    (Some [[Some "AI news"; Some "Weather"]])
    (Some [[Some (mkMetadata (Some "T1") (Some "S1") (Some "U1")); None]])
    (Some [[Some (1 # 10); Some (3 # 10)]]).

(** A field that, when set, is what follows the name of the field on a line. *)
Definition fromLine (field : string) (lines : list string) (x : option string) : Prop :=
  forall t, x = Some t -> In (field +:+ t) lines.

Definition readOff (lines : list string) (e : Source) : Prop :=
  fromLine "Title: " lines (src_title e)
  /\ fromLine "Source: " lines (src_source e)
  /\ fromLine "URL: " lines (src_url e).

(** Collaborators whose embedding model and hosted model reject. *)
Definition failingCollaborators : Collaborators := {|
  md5hex := fun q => "h:" +:+ q;
  uuidv4 := fun n => "id";
  pipeline := Ok tt;
  embedder := fun q => Throw (Error "ECONNREFUSED");
  chromaGetCollection := Throw (Error "collection not found");
  collectionQuery := fun e n => Ok demoResults;
  generateContent := fun p => Throw (Error "quota exceeded");
  env_TOP_K_RESULTS := None;
  env_MAX_CONTEXT_LENGTH := None;
  env_SESSION_TTL := None
|}.

(** A part of the state that retrieval and generation cannot change: it does
    not depend on the query cache, on the two module variables or on the log
    of calls. *)
Definition blind {B : Type} (f : World -> B) : Prop :=
  forall w q l c cs,
    f (mkWorld (isConnected w) (clientReady w) (sessions w) q l c (now w) (uuids w) cs)
    = f w.

(** A request without text: no message, or one of white space only. *)
Definition blankMessage (message : option string) : Prop :=
  match message with
  | Some text => Js.trim text = EmptyString
  | None => True
  end.

(** ** Auxiliary notions used in the proofs *)

(** A computation that makes no call to the hosted model. *)
Definition quiet {A : Type} (m : M A) : Prop :=
  forall w, generations (snd (m w)) = generations w.

(** The expiry that [addToSessionHistory] writes with. *)
Definition sessionTtl `{Collaborators} : Z := Js.intOr env_SESSION_TTL 86400.

(** A message that carries a time stamp; a store whose session entries are
    all written with the configured expiry and hold between 1 and 50 stamped
    messages. *)
Definition stamped (m : Message) : Prop := is_Some (timestamp m).

Definition storeInOrder `{Collaborators} (w : World) : Prop :=
  forall sessionId ttl log,
    sessions w !! sessionId = Some (ttl, log) ->
    ttl = sessionTtl /\ log <> [] /\ length log <= 50 /\ Forall stamped log.

(** An entry with its three fields set, title and source not empty. *)
Definition complete (e : Source) : Prop :=
  exists t s u, e = mkSource (Some t) (Some s) (Some u)
                /\ t <> EmptyString /\ s <> EmptyString.

(** The last code unit of the text is not white space. *)
Fixpoint endsInk (s : string) : bool :=
  match s with
  | EmptyString => false
  | String c EmptyString => negb (Js.isWhiteSpace c)
  | String _ s' => endsInk s'
  end.

(** The text of a block after its leading line break, followed by [rest]. *)
Definition blockBody (m : Metadata) (doc : option string) (rest : string) : string :=
  "Title: " +:+ Js.orElse (meta_title m) "Unknown" +:+
  String Js.LF ("Source: " +:+ Js.orElse (meta_source m) "Unknown" +:+
  String Js.LF ("URL: " +:+ Js.orElse (meta_url m) "N/A" +:+
  String Js.LF ("Content: " +:+ showDoc doc +:+
  String Js.LF ("---" +:+ rest)))).

(** * Properties *)

(** ** Strings *)

#[local] Arguments String.append !_ _ / : simpl nomatch.

Lemma append_assoc (a b c : string) : (a +:+ b) +:+ c = a +:+ (b +:+ c).
Proof. induction a as [|x a IH]; simpl; [reflexivity | now rewrite IH]. Qed.

Lemma append_empty_r (a : string) : a +:+ EmptyString = a.
Proof. induction a as [|x a IH]; simpl; [reflexivity | now rewrite IH]. Qed.

Lemma length_append (a b : string) :
  String.length (a +:+ b) = String.length a + String.length b.
Proof. induction a as [|x a IH]; simpl; [reflexivity | now rewrite IH]. Qed.

Lemma strlen_append (a b : string) : strlen (a +:+ b) = (strlen a + strlen b)%Z.
Proof. unfold strlen. rewrite length_append. lia. Qed.

Lemma strlen_concat (blocks : list string) :
  strlen (Js.concat blocks) = totalLength blocks.
Proof.
  induction blocks as [|b blocks IH]; simpl; [reflexivity|].
  now rewrite strlen_append, IH.
Qed.

Lemma concat_cons (b : string) (l : list string) :
  Js.concat (b :: l) = b +:+ Js.concat l.
Proof. reflexivity. Qed.

(** *** Trimming *)

Lemma endsInk_trimEnd (s : string) : endsInk s = true -> Js.trimEnd s = s.
Proof.
  induction s as [|c s IH]; simpl; [discriminate|].
  destruct s as [|d s].
  - simpl. intros Hc. now destruct (Js.isWhiteSpace c).
  - intros H. rewrite (IH H). reflexivity.
Qed.

Lemma endsInk_append (a b : string) : endsInk b = true -> endsInk (a +:+ b) = true.
Proof.
  intros Hb. induction a as [|c a IH]; simpl; [exact Hb|].
  destruct (a +:+ b) eqn:E; [|exact IH].
  destruct a; simpl in E; [subst b|]; discriminate.
Qed.

Lemma endsInk_cons (c : ascii) (b : string) : endsInk b = true -> endsInk (String c b) = true.
Proof. intros Hb. apply (endsInk_append (String c EmptyString) b Hb). Qed.

Lemma trimEnd_idem (s : string) : Js.trimEnd (Js.trimEnd s) = Js.trimEnd s.
Proof.
  induction s as [|c s IH]; simpl; [reflexivity|].
  destruct (Js.trimEnd s) as [|d r] eqn:E.
  - destruct (Js.isWhiteSpace c) eqn:Hc; simpl; [reflexivity|]. now rewrite Hc.
  - simpl. simpl in IH. rewrite IH. reflexivity.
Qed.

Lemma trimEnd_trim (s : string) : Js.trimEnd (Js.trim s) = Js.trim s.
Proof. unfold Js.trim. apply trimEnd_idem. Qed.

(** *** The shape of a block *)

Lemma docContext_append (m : Metadata) (doc : option string) (rest : string) :
  docContext m doc +:+ rest = String Js.LF (blockBody m doc rest).
Proof.
  unfold docContext, blockBody. simpl.
  repeat (rewrite ?append_assoc; simpl; f_equal).
Qed.

Lemma endsInk_blockBody (m : Metadata) (doc : option string) (rest : string) :
  (rest = EmptyString \/ endsInk rest = true) -> endsInk (blockBody m doc rest) = true.
Proof.
  intros Hrest. unfold blockBody.
  do 4 (apply endsInk_append; apply endsInk_append; apply endsInk_cons).
  destruct Hrest as [-> | Hrest]; [reflexivity|].
  now apply (endsInk_append "---").
Qed.

(** ** The context builder *)

Lemma length_zipFrom metas dists i docs :
  length (zipFrom metas dists i docs) = length docs.
Proof.
  revert i. induction docs as [|d docs IH]; intros i; simpl; [reflexivity|].
  now rewrite IH.
Qed.

(** The loop over indices is the loop over the paired passages. *)
Lemma loop_accumulate docs metas dists maxLength n i context currentLength :
  buildContext_loop docs metas dists maxLength n i context currentLength
  = accumulate (take n (zipFrom metas dists i (drop i docs)))
               maxLength context currentLength.
Proof.
  revert i context currentLength.
  induction n as [|n IH]; intros i context currentLength; simpl.
  - reflexivity.
  - destruct (docs !! i) as [doc|] eqn:Hdoc.
    + rewrite (drop_S _ _ _ Hdoc). simpl.
      destruct (tooFar (mjoin (dists !! i))); [apply IH|].
      destruct (mjoin (metas !! i)) as [m|]; [|reflexivity].
      destruct (currentLength + strlen (docContext m doc) >? maxLength)%Z;
        [reflexivity | apply IH].
    + apply lookup_ge_None in Hdoc. now rewrite (drop_ge _ _ Hdoc).
Qed.

Lemma buildContext_accumulate r maxLength :
  buildContext r maxLength
  = match accumulate (passages r) maxLength EmptyString 0 with
    | Ok context => Ok (Js.trim context)
    | Throw e => Throw e
    end.
Proof.
  unfold buildContext, passages. rewrite loop_accumulate, drop_0.
  rewrite take_ge; [reflexivity|]. now rewrite length_zipFrom.
Qed.

Lemma zipFrom_map_gen (pm : list (option Metadata)) (pd : list (option Q))
    (ps : list Passage) :
  length pm = length pd ->
  zipFrom (pm ++ map p_meta ps) (pd ++ map p_distance ps) (length pm) (map p_doc ps)
  = ps.
Proof.
  revert pm pd. induction ps as [|p ps IH]; intros pm pd Hlen; simpl; [reflexivity|].
  rewrite list_lookup_middle by reflexivity.
  rewrite list_lookup_middle by exact Hlen. simpl.
  specialize (IH (pm ++ [p_meta p]) (pd ++ [p_distance p])).
  rewrite <- !app_assoc in IH. simpl in IH.
  rewrite length_app in IH. simpl in IH.
  replace (length pm + 1) with (S (length pm)) in IH by lia.
  rewrite IH by (rewrite !length_app; simpl; lia).
  now destruct p.
Qed.

Lemma passages_ofPassages (ps : list Passage) : passages (ofPassages ps) = ps.
Proof. unfold passages, ofPassages. simpl. now apply (zipFrom_map_gen [] []). Qed.

Lemma blockOf_meta (p : Passage) (m : Metadata) :
  p_meta p = Some m -> blockOf p = docContext m (p_doc p).
Proof. unfold blockOf. now intros ->. Qed.

Lemma accumulate_included ps maxLength context currentLength out :
  accumulate ps maxLength context currentLength = Ok out ->
  out = context +:+ Js.concat (map blockOf (includedFrom ps maxLength currentLength)).
Proof.
  revert context currentLength out.
  induction ps as [|p ps IH]; intros context currentLength out; simpl.
  - intros [= <-]. now rewrite append_empty_r.
  - destruct (tooFar (p_distance p)); [apply IH|].
    destruct (p_meta p) as [m|] eqn:Hm; [|discriminate].
    destruct (currentLength + strlen (docContext m (p_doc p)) >? maxLength)%Z.
    + intros [= <-]. simpl. now rewrite append_empty_r.
    + intros H. apply IH in H. subst out. simpl.
      rewrite (blockOf_meta _ _ Hm). now rewrite append_assoc.
Qed.

Lemma includedFrom_near ps maxLength currentLength :
  Forall (fun p => tooFar (p_distance p) = false)
         (includedFrom ps maxLength currentLength).
Proof.
  revert currentLength. induction ps as [|p ps IH]; intros currentLength; simpl.
  - constructor.
  - destruct (tooFar (p_distance p)) eqn:Hfar; [apply IH|].
    destruct (p_meta p) as [m|]; [|constructor].
    destruct (currentLength + strlen (docContext m (p_doc p)) >? maxLength)%Z;
      constructor; [exact Hfar | apply IH].
Qed.

Lemma includedFrom_meta ps maxLength currentLength :
  Forall (fun p => is_Some (p_meta p)) (includedFrom ps maxLength currentLength).
Proof.
  revert currentLength. induction ps as [|p ps IH]; intros currentLength; simpl.
  - constructor.
  - destruct (tooFar (p_distance p)); [apply IH|].
    destruct (p_meta p) as [m|] eqn:Hm; [|constructor].
    destruct (currentLength + strlen (docContext m (p_doc p)) >? maxLength)%Z;
      constructor; [rewrite Hm; eauto | apply IH].
Qed.

Lemma includedFrom_prefix ps maxLength currentLength :
  includedFrom ps maxLength currentLength
    `prefix_of` filter (fun p => near p = true) ps.
Proof.
  revert currentLength. induction ps as [|p ps IH]; intros currentLength; simpl.
  - reflexivity.
  - destruct (tooFar (p_distance p)) eqn:Hfar.
    + rewrite filter_cons_False by (unfold near; rewrite Hfar; discriminate).
      apply IH.
    + rewrite filter_cons_True by (unfold near; now rewrite Hfar).
      destruct (p_meta p) as [m|]; [|apply prefix_nil].
      destruct (currentLength + strlen (docContext m (p_doc p)) >? maxLength)%Z;
        [apply prefix_nil | apply prefix_cons, IH].
Qed.

Lemma includedFrom_budget ps maxLength currentLength :
  includedFrom ps maxLength currentLength <> [] ->
  (currentLength + totalLength (map blockOf (includedFrom ps maxLength currentLength))
   <= maxLength)%Z.
Proof.
  revert currentLength. induction ps as [|p ps IH]; intros currentLength; simpl.
  - congruence.
  - destruct (tooFar (p_distance p)); [apply IH|].
    destruct (p_meta p) as [m|] eqn:Hm; [|congruence].
    destruct (currentLength + strlen (docContext m (p_doc p)) >? maxLength)%Z eqn:Hgt;
      [congruence|].
    intros _. simpl. rewrite (blockOf_meta _ _ Hm).
    destruct (includedFrom ps maxLength (currentLength + strlen (docContext m (p_doc p))))
      as [|q qs] eqn:Hinc.
    + simpl. lia.
    + specialize (IH (currentLength + strlen (docContext m (p_doc p)))%Z).
      rewrite Hinc in IH. specialize (IH ltac:(congruence)). lia.
Qed.

Lemma includedFrom_stop ps maxLength context currentLength out p :
  accumulate ps maxLength context currentLength = Ok out ->
  filter (fun p => near p = true) ps
    !! length (includedFrom ps maxLength currentLength) = Some p ->
  is_Some (p_meta p)
  /\ (maxLength < currentLength
               + totalLength (map blockOf (includedFrom ps maxLength currentLength))
               + strlen (blockOf p))%Z.
Proof.
  revert context currentLength.
  induction ps as [|q ps IH]; intros context currentLength; simpl.
  - intros _. discriminate.
  - destruct (tooFar (p_distance q)) eqn:Hfar.
    + rewrite filter_cons_False by (unfold near; rewrite Hfar; discriminate).
      apply IH.
    + rewrite filter_cons_True by (unfold near; now rewrite Hfar).
      destruct (p_meta q) as [m|] eqn:Hm; [|discriminate].
      destruct (currentLength + strlen (docContext m (p_doc q)) >? maxLength)%Z eqn:Hgt.
      * intros _ [= <-]. simpl. rewrite (blockOf_meta _ _ Hm), Hm. split; [eauto | lia].
      * intros Hacc Hlook. simpl in Hlook.
        destruct (IH _ _ Hacc Hlook) as [Hsome Hlt]. split; [exact Hsome|].
        simpl. rewrite (blockOf_meta _ _ Hm). lia.
Qed.

Lemma accumulate_skip l1 p l2 maxLength context currentLength :
  tooFar (p_distance p) = true ->
  accumulate (l1 ++ p :: l2) maxLength context currentLength
  = accumulate (l1 ++ l2) maxLength context currentLength.
Proof.
  intros Hfar. revert context currentLength.
  induction l1 as [|q l1 IH]; intros context currentLength; simpl.
  - now rewrite Hfar.
  - destruct (tooFar (p_distance q)); [apply IH|].
    destruct (p_meta q) as [m|]; [|reflexivity].
    destruct (currentLength + strlen (docContext m (p_doc q)) >? maxLength)%Z;
      [reflexivity | apply IH].
Qed.

Lemma includedFrom_skip l1 p l2 maxLength currentLength :
  tooFar (p_distance p) = true ->
  includedFrom (l1 ++ p :: l2) maxLength currentLength
  = includedFrom (l1 ++ l2) maxLength currentLength.
Proof.
  intros Hfar. revert currentLength.
  induction l1 as [|q l1 IH]; intros currentLength; simpl.
  - now rewrite Hfar.
  - destruct (tooFar (p_distance q)); [apply IH|].
    destruct (p_meta q) as [m|]; [|reflexivity].
    destruct (currentLength + strlen (docContext m (p_doc q)) >? maxLength)%Z;
      [reflexivity | now rewrite IH].
Qed.

(** Without metadata missing among the passages that are near enough, the
    builder returns. *)
Lemma accumulate_returns ps maxLength context currentLength :
  Forall (fun p => near p = true -> is_Some (p_meta p)) ps ->
  exists out, accumulate ps maxLength context currentLength = Ok out.
Proof.
  revert context currentLength.
  induction ps as [|p ps IH]; intros context currentLength Hall; simpl; [eauto|].
  inversion Hall as [|? ? Hp Hps]; subst.
  unfold near in Hp. destruct (tooFar (p_distance p)); [now apply IH|].
  destruct (Hp eq_refl) as [m ->].
  destruct (currentLength + strlen (docContext m (p_doc p)) >? maxLength)%Z;
    [eauto | now apply IH].
Qed.

Lemma buildContext_returns r maxLength :
  Forall (fun p => near p = true -> is_Some (p_meta p)) (passages r) ->
  exists context, buildContext r maxLength = Ok context.
Proof.
  intros Hall. rewrite buildContext_accumulate.
  destruct (accumulate_returns _ maxLength EmptyString 0%Z Hall) as [out ->]. eauto.
Qed.

(** The blocks that were kept end in the separator, so nothing but the line
    break in front of the first one is trimmed away. *)
Lemma concat_blocks_ends (kept : list Passage) :
  Forall (fun p => is_Some (p_meta p)) kept ->
  kept = [] \/ endsInk (Js.concat (map blockOf kept)) = true.
Proof.
  induction kept as [|p kept IH]; intros Hall; [now left | right].
  inversion Hall as [|? ? [m Hm] Hrest]; subst. simpl.
  rewrite (blockOf_meta _ _ Hm), docContext_append.
  apply endsInk_cons, endsInk_blockBody.
  destruct (IH Hrest) as [-> | H]; [now left | now right].
Qed.

Lemma trim_blocks (kept : list Passage) :
  Forall (fun p => is_Some (p_meta p)) kept -> kept <> [] ->
  String Js.LF (Js.trim (Js.concat (map blockOf kept))) = Js.concat (map blockOf kept).
Proof.
  destruct kept as [|p kept]; [congruence|]. intros Hall _.
  inversion Hall as [|? ? [m Hm] Hrest]; subst. simpl.
  rewrite (blockOf_meta _ _ Hm), docContext_append.
  unfold Js.trim.
  change (Js.trimStart (String Js.LF (blockBody m (p_doc p) (Js.concat (map blockOf kept)))))
    with (blockBody m (p_doc p) (Js.concat (map blockOf kept))).
  rewrite endsInk_trimEnd; [reflexivity|].
  apply endsInk_blockBody.
  destruct (concat_blocks_ends kept Hrest) as [-> | H]; [now left | now right].
Qed.

Lemma buildContext_included r maxLength context :
  buildContext r maxLength = Ok context ->
  context = Js.trim (Js.concat (map blockOf (included r maxLength))).
Proof.
  rewrite buildContext_accumulate.
  destruct (accumulate (passages r) maxLength EmptyString 0) as [out|e] eqn:Hacc;
    [|discriminate].
  intros [= <-]. apply accumulate_included in Hacc. now subst out.
Qed.

(** C3. For every search result and every character budget [maxLength] (a
    budget is not negative), the text returned by [buildContext] is at most
    [maxLength] long. It is made of the whole formatted blocks of the first
    passages that are near enough, in their order; the loop stops at the first
    block that would go over the budget, which is left out whole; and trimming
    removes nothing but the line break in front of the first block, so the text
    has no white space at its end and no block is cut. *)
Theorem buildContext_within_budget (r : SearchResults) (maxLength : Z)
    (context : string) :
  buildContext r maxLength = Ok context ->
  let kept := included r maxLength in
  let blocks := map blockOf kept in
  (strlen context <= Z.max 0 maxLength)%Z
  /\ kept `prefix_of` filter (fun p => near p = true) (passages r)
  /\ (kept <> [] -> (totalLength blocks <= maxLength)%Z)
  /\ (forall p, filter (fun p => near p = true) (passages r) !! length kept = Some p ->
        is_Some (p_meta p)
        /\ (maxLength < totalLength blocks + strlen (blockOf p))%Z)
  /\ context = Js.trim (Js.concat blocks)
  /\ (kept <> [] -> String Js.LF context = Js.concat blocks)
  /\ Js.trimEnd context = context.
Proof.
  intros Hctx kept blocks.
  pose proof (buildContext_included _ _ _ Hctx) as Heq. fold kept blocks in Heq.
  assert (Hmeta : Forall (fun p => is_Some (p_meta p)) kept)
    by apply includedFrom_meta.
  assert (Hbudget : kept <> [] -> (totalLength blocks <= maxLength)%Z).
  { intros Hne. pose proof (includedFrom_budget (passages r) maxLength 0%Z Hne). 
    fold (included r maxLength) in *. fold kept blocks in H. lia. }
  assert (Hwhole : kept <> [] -> String Js.LF context = Js.concat blocks).
  { intros Hne. subst context. now apply trim_blocks. }
  repeat split.
  - destruct kept as [|p kept'] eqn:Hk.
    + subst context blocks. simpl. unfold strlen. simpl. lia.
    + assert (Hne : p :: kept' <> []) by congruence.
      specialize (Hbudget Hne). specialize (Hwhole Hne).
      rewrite <- strlen_concat in Hbudget. rewrite <- Hwhole in Hbudget.
      unfold strlen in *. simpl String.length in Hbudget. lia.
  - apply includedFrom_prefix.
  - exact Hbudget.
  - rewrite buildContext_accumulate in Hctx.
    destruct (accumulate (passages r) maxLength EmptyString 0) as [out|e] eqn:Hacc;
      [|discriminate].
    destruct (includedFrom_stop _ _ _ _ _ _ Hacc H) as [Hsome _]. exact Hsome.
  - rewrite buildContext_accumulate in Hctx.
    destruct (accumulate (passages r) maxLength EmptyString 0) as [out|e] eqn:Hacc;
      [|discriminate].
    destruct (includedFrom_stop _ _ _ _ _ _ Hacc H) as [_ Hlt].
    fold (included r maxLength) in Hlt. fold kept blocks in Hlt. lia.
  - exact Heq.
  - exact Hwhole.
  - rewrite Heq. apply trimEnd_trim.
Qed.

Lemma buildContext_within_budget_witness :
  exists context,
    buildContext demoResults 4000 = Ok context
    /\ (strlen context <= Z.max 0 4000)%Z
    /\ Js.trimEnd context = context.
Proof.
  eexists. split; [reflexivity|].
  pose proof (buildContext_within_budget demoResults 4000 _ eq_refl) as H.
  cbv zeta in H. destruct H as (H1 & _ & _ & _ & _ & _ & H7).
  split; [exact H1 | exact H7].
Defined.

(** C4. A passage whose distance is above 0.8 adds nothing to the context,
    wherever it stands in the ranked list: taking it out of the list changes
    neither the text that is built nor the passages that are kept, so it uses
    no budget; and every passage whose block is in the text has a distance
    that is not above 0.8. *)
Theorem far_passage_contributes_nothing (r : SearchResults) (maxLength : Z)
    (l1 : list Passage) (p : Passage) (l2 : list Passage) :
  passages r = l1 ++ p :: l2 ->
  tooFar (p_distance p) = true ->
  buildContext r maxLength = buildContext (ofPassages (l1 ++ l2)) maxLength
  /\ included r maxLength = included (ofPassages (l1 ++ l2)) maxLength
  /\ Forall (fun q => tooFar (p_distance q) = false) (included r maxLength)
  /\ (forall context, buildContext r maxLength = Ok context ->
        context = Js.trim (Js.concat (map blockOf (included r maxLength)))).
Proof.
  intros Hps Hfar. repeat split.
  - rewrite !buildContext_accumulate, passages_ofPassages, Hps.
    now rewrite accumulate_skip.
  - unfold included. rewrite passages_ofPassages, Hps. now apply includedFrom_skip.
  - apply includedFrom_near.
  - apply buildContext_included.
Qed.

Lemma far_passage_contributes_nothing_witness :
  buildContext demoResults 4000
  = buildContext
      (ofPassages
         [mkPassage (Some "AI news") (Some (mkMetadata (Some "T1") (Some "S1") (Some "U1")))
                    (Some (1 # 10));
          mkPassage (Some "Sports") (Some (mkMetadata (Some "T3") None None))
                    (Some (5 # 10))])
      4000.
Proof.
  apply (far_passage_contributes_nothing demoResults 4000
           [mkPassage (Some "AI news")
                      (Some (mkMetadata (Some "T1") (Some "S1") (Some "U1")))
                      (Some (1 # 10))]
           (mkPassage (Some "Weather") None (Some (9 # 10)))
           [mkPassage (Some "Sports") (Some (mkMetadata (Some "T3") None None))
                      (Some (5 # 10))]);
    reflexivity.
Defined.

(** ** The citation extractor *)

#[local] Arguments extractSources_step : simpl never.

Lemma prefix_head (a b : ascii) (p s : string) :
  String.prefix (String a p) (String b s) = true -> a = b.
Proof.
  change (String.prefix (String a p) (String b s))
    with (if ascii_dec a b then String.prefix p s else false).
  destruct (ascii_dec a b); [trivial | discriminate].
Qed.

Lemma title_not_url (line : string) :
  Js.startsWith line "Title: " = true -> Js.startsWith line "URL: " = false.
Proof.
  unfold Js.startsWith. destruct line as [|c line]; [discriminate|].
  intros H. apply prefix_head in H. subst c. reflexivity.
Qed.

Lemma source_not_url (line : string) :
  Js.startsWith line "Source: " = true -> Js.startsWith line "URL: " = false.
Proof.
  unfold Js.startsWith. destruct line as [|c line]; [discriminate|].
  intros H. apply prefix_head in H. subst c. reflexivity.
Qed.

Lemma truthy_Some (x : option string) :
  Js.truthy x = true -> exists t, x = Some t /\ t <> EmptyString.
Proof.
  destruct x as [[|c t]|]; simpl; try discriminate.
  intros _. eexists. split; [reflexivity | discriminate].
Qed.

(** What one line does to the state of the loop. *)
Lemma step_other acc cs line :
  Js.startsWith line "URL: " = false ->
  fst (extractSources_step (acc, cs) line) = acc.
Proof.
  intros Hurl. unfold extractSources_step.
  destruct (Js.startsWith line "Title: "); [reflexivity|].
  destruct (Js.startsWith line "Source: "); [reflexivity|].
  now rewrite Hurl.
Qed.

Lemma step_url acc cs line :
  Js.startsWith line "URL: " = true ->
  extractSources_step (acc, cs) line
  = (if Js.truthy (src_title cs) && Js.truthy (src_source cs)
     then acc ++ [mkSource (src_title cs) (src_source cs)
                           (Some (Js.replace "URL: " EmptyString line))]
     else acc,
     noSource).
Proof.
  intros Hurl. unfold extractSources_step.
  destruct (Js.startsWith line "Title: ") eqn:Ht;
    [apply title_not_url in Ht; congruence|].
  destruct (Js.startsWith line "Source: ") eqn:Hs;
    [apply source_not_url in Hs; congruence|].
  rewrite Hurl. simpl.
  now destruct (Js.truthy (src_title cs) && Js.truthy (src_source cs)).
Qed.

Lemma step_complete acc cs line :
  Forall complete acc -> Forall complete (fst (extractSources_step (acc, cs) line)).
Proof.
  intros Hacc. destruct (Js.startsWith line "URL: ") eqn:Hurl.
  - rewrite step_url by exact Hurl.
    destruct (Js.truthy (src_title cs)) eqn:Ht; simpl; [|exact Hacc].
    destruct (Js.truthy (src_source cs)) eqn:Hs; simpl; [|exact Hacc].
    apply Forall_app. split; [exact Hacc|]. constructor; [|constructor].
    destruct (truthy_Some _ Ht) as (t & -> & Hne1).
    destruct (truthy_Some _ Hs) as (s0 & -> & Hne2).
    now exists t, s0, (Js.replace "URL: " EmptyString line).
  - now rewrite step_other.
Qed.

Lemma fold_complete lines acc cs :
  Forall complete acc ->
  Forall complete (fst (fold_left extractSources_step lines (acc, cs))).
Proof.
  revert acc cs. induction lines as [|line lines IH]; intros acc cs Hacc; simpl.
  - exact Hacc.
  - pose proof (step_complete acc cs line Hacc) as H.
    destruct (extractSources_step (acc, cs) line) as [acc' cs']. now apply IH.
Qed.

Lemma scan_snoc lines line :
  scan (lines ++ [line]) = extractSources_step (scan lines) line.
Proof. unfold scan. now rewrite fold_left_app. Qed.

Lemma sinceUrl_snoc lines line :
  sinceUrl (lines ++ [line])
  = if Js.startsWith line "URL: " then [] else sinceUrl lines ++ [line].
Proof. unfold sinceUrl. now rewrite fold_left_app. Qed.

Lemma sinceUrl_no_url lines :
  Forall (fun l => Js.startsWith l "URL: " = false) (sinceUrl lines).
Proof.
  induction lines as [|line lines IH] using rev_ind; [constructor|].
  rewrite sinceUrl_snoc. destruct (Js.startsWith line "URL: ") eqn:Hurl; [constructor|].
  apply Forall_app. split; [exact IH|]. now constructor.
Qed.

Lemma sinceUrl_suffix lines : sinceUrl lines `suffix_of` lines.
Proof.
  induction lines as [|line lines IH] using rev_ind; [reflexivity|].
  rewrite sinceUrl_snoc. destruct (Js.startsWith line "URL: ").
  - apply suffix_nil.
  - now apply suffix_app.
Qed.

Lemma fold_no_url lines st :
  Forall (fun l => Js.startsWith l "URL: " = false) lines ->
  fst (fold_left extractSources_step lines st) = fst st.
Proof.
  revert st. induction lines as [|line lines IH]; intros [acc cs] Hall; simpl;
    [reflexivity|].
  inversion Hall as [|? ? Hline Hrest]; subst.
  rewrite IH by exact Hrest. now apply step_other.
Qed.

(** The fields of [currentSource] come from lines read since the last URL
    line. *)
Lemma scan_current lines :
  (is_Some (src_title (snd (scan lines))) ->
     Exists (fun l => Js.startsWith l "Title: " = true) (sinceUrl lines))
  /\ (is_Some (src_source (snd (scan lines))) ->
     Exists (fun l => Js.startsWith l "Source: " = true) (sinceUrl lines)).
Proof.
  induction lines as [|line lines [IHt IHs]] using rev_ind.
  - split; intros [x Hx]; discriminate.
  - rewrite scan_snoc, sinceUrl_snoc.
    destruct (scan lines) as [acc cs]. simpl in IHt, IHs.
    destruct (Js.startsWith line "URL: ") eqn:Hurl.
    + rewrite step_url by exact Hurl. simpl. split; intros [x Hx]; discriminate.
    + unfold extractSources_step.
      destruct (Js.startsWith line "Title: ") eqn:Ht; simpl.
      { split; intros Hsome; apply Exists_app.
        - right. now constructor.
        - left. now apply IHs. }
      destruct (Js.startsWith line "Source: ") eqn:Hs; simpl.
      { split; intros Hsome; apply Exists_app.
        - left. now apply IHt.
        - right. now constructor. }
      rewrite Hurl. simpl.
      split; intros Hsome; apply Exists_app; left; [now apply IHt | now apply IHs].
Qed.

(** C10. Every entry that [extractSources] returns has its three fields set,
    title and source to a text that is not empty. An entry is emitted only at a
    line that starts with the URL field, and only when a line that starts with
    the title field and one that starts with the source field were read before
    it, after the last entry was emitted (indeed after the last URL line). *)
Theorem extractSources_entries_complete (context : string) :
  Forall (fun e => exists t s u,
            e = mkSource (Some t) (Some s) (Some u)
            /\ t <> EmptyString /\ s <> EmptyString)
         (extractSources context)
  /\ forall pre line post,
       Js.split Js.LF context = pre ++ line :: post ->
       fst (scan (pre ++ [line])) <> fst (scan pre) ->
       Js.startsWith line "URL: " = true
       /\ exists seg0 seg,
            pre = seg0 ++ seg
            /\ fst (scan seg0) = fst (scan pre)
            /\ Forall (fun l => Js.startsWith l "URL: " = false) seg
            /\ Exists (fun l => Js.startsWith l "Title: " = true) seg
            /\ Exists (fun l => Js.startsWith l "Source: " = true) seg.
Proof.
  split.
  - unfold extractSources, scan. apply (fold_complete _ [] noSource). constructor.
  - intros pre line post _ Hemit.
    rewrite scan_snoc in Hemit.
    destruct (scan pre) as [acc cs] eqn:Hscan.
    destruct (Js.startsWith line "URL: ") eqn:Hurl;
      [|rewrite step_other in Hemit by exact Hurl; now simpl in Hemit].
    split; [reflexivity|].
    rewrite step_url in Hemit by exact Hurl. simpl in Hemit.
    destruct (Js.truthy (src_title cs)) eqn:Ht; [|now simpl in Hemit].
    destruct (Js.truthy (src_source cs)) eqn:Hs; [|now simpl in Hemit].
    destruct (truthy_Some _ Ht) as (t & Htitle & _).
    destruct (truthy_Some _ Hs) as (s0 & Hsource & _).
    destruct (sinceUrl_suffix pre) as [seg0 Hpre].
    destruct (scan_current pre) as [Hti Hso]. rewrite Hscan in Hti, Hso. simpl in Hti, Hso.
    exists seg0, (sinceUrl pre). repeat split.
    + exact Hpre.
    + assert (Hsplit : scan pre
                       = fold_left extractSources_step (sinceUrl pre) (scan seg0)).
      { rewrite Hpre at 1. unfold scan. apply fold_left_app. }
      rewrite Hscan in Hsplit. rewrite Hsplit.
      symmetry. apply fold_no_url, sinceUrl_no_url.
    + apply sinceUrl_no_url.
    + apply Hti. rewrite Htitle. eauto.
    + apply Hso. rewrite Hsource. eauto.
Qed.

Lemma extractSources_entries_complete_witness :
  Js.startsWith "URL: u" "URL: " = true
  /\ exists seg0 seg,
       ["Title: t"; "Source: s"] = seg0 ++ seg
       /\ fst (scan seg0) = fst (scan ["Title: t"; "Source: s"])
       /\ Forall (fun l => Js.startsWith l "URL: " = false) seg
       /\ Exists (fun l => Js.startsWith l "Title: " = true) seg
       /\ Exists (fun l => Js.startsWith l "Source: " = true) seg.
Proof.
  apply (proj2 (extractSources_entries_complete
                  (Js.join NL ["Title: t"; "Source: s"; "URL: u"]))
               ["Title: t"; "Source: s"] "URL: u" []).
  - reflexivity.
  - vm_compute. discriminate.
Defined.

(** *** Reading the blocks back *)

Lemma split_nonempty (s : string) : exists h t, Js.split Js.LF s = h :: t.
Proof.
  induction s as [|c s (h & t & IH)]; simpl; [eauto|].
  destruct (Ascii.eqb c Js.LF); [eauto|]. rewrite IH. eauto.
Qed.

Lemma split_append_LF (a b : string) :
  Js.split Js.LF (a +:+ String Js.LF b) = Js.split Js.LF a ++ Js.split Js.LF b.
Proof.
  induction a as [|c a IH].
  - reflexivity.
  - simpl. destruct (Ascii.eqb c Js.LF).
    + now rewrite IH.
    + rewrite IH. destruct (split_nonempty a) as (h & t & ->). reflexivity.
Qed.

Lemma hasLF_cons (c : ascii) (s : string) :
  hasLF (String c s) = Ascii.eqb c Js.LF || hasLF s.
Proof. unfold hasLF. simpl. now rewrite Ascii.eqb_sym. Qed.

Lemma hasLF_append (a b : string) : hasLF (a +:+ b) = hasLF a || hasLF b.
Proof.
  induction a as [|c a IH]; [reflexivity|].
  simpl. rewrite !hasLF_cons, IH. now rewrite orb_assoc.
Qed.

Lemma split_plain (s : string) : hasLF s = false -> Js.split Js.LF s = [s].
Proof.
  induction s as [|c s IH]; [reflexivity|].
  rewrite hasLF_cons. intros H. apply orb_false_elim in H as [Hc Hs].
  simpl. rewrite Hc, (IH Hs). reflexivity.
Qed.

Lemma split_prepend (p s h : string) (t : list string) :
  hasLF p = false -> Js.split Js.LF s = h :: t ->
  Js.split Js.LF (p +:+ s) = (p +:+ h) :: t.
Proof.
  intros Hp Hs. induction p as [|c p IH]; [exact Hs|].
  rewrite hasLF_cons in Hp. apply orb_false_elim in Hp as [Hc Hp].
  simpl. rewrite Hc, (IH Hp). reflexivity.
Qed.

Lemma startsWith_append (p s : string) : Js.startsWith (p +:+ s) p = true.
Proof.
  unfold Js.startsWith. induction p as [|c p IH]; simpl.
  - now destruct s.
  - destruct (ascii_dec c c); [exact IH | congruence].
Qed.

Lemma dropChars_append (p s : string) : Js.dropChars (String.length p) (p +:+ s) = s.
Proof. induction p as [|c p IH]; [reflexivity | exact IH]. Qed.

Lemma replace_unfold (pat rep s : string) :
  Js.replace pat rep s
  = if String.prefix pat s then rep +:+ Js.dropChars (String.length pat) s
    else match s with
         | EmptyString => EmptyString
         | String c s' => String c (Js.replace pat rep s')
         end.
Proof. destruct s; reflexivity. Qed.

(** On a line that starts with the field name, [replace] strips it. *)
Lemma replace_prefix (p s : string) : Js.replace p EmptyString (p +:+ s) = s.
Proof.
  pose proof (startsWith_append p s) as H. unfold Js.startsWith in H.
  rewrite replace_unfold, H. simpl. apply dropChars_append.
Qed.

Lemma orElse_truthy (x : option string) (d : string) :
  d <> EmptyString -> Js.truthy (Some (Js.orElse x d)) = true.
Proof.
  intros Hd. destruct x as [[|c t]|]; simpl; try reflexivity;
    destruct d; congruence.
Qed.

Lemma step_title acc cs t :
  extractSources_step (acc, cs) ("Title: " +:+ t)
  = (acc, mkSource (Some t) (src_source cs) (src_url cs)).
Proof.
  unfold extractSources_step.
  now rewrite (startsWith_append "Title: " t), (replace_prefix "Title: " t).
Qed.

Lemma step_source acc cs t :
  extractSources_step (acc, cs) ("Source: " +:+ t)
  = (acc, mkSource (src_title cs) (Some t) (src_url cs)).
Proof.
  unfold extractSources_step.
  replace (Js.startsWith ("Source: " +:+ t) "Title: ") with false by reflexivity.
  now rewrite (startsWith_append "Source: " t), (replace_prefix "Source: " t).
Qed.

Lemma step_url_field acc cs t :
  extractSources_step (acc, cs) ("URL: " +:+ t)
  = (if Js.truthy (src_title cs) && Js.truthy (src_source cs)
     then acc ++ [mkSource (src_title cs) (src_source cs) (Some t)]
     else acc,
     noSource).
Proof.
  rewrite step_url by apply (startsWith_append "URL: " t).
  now rewrite (replace_prefix "URL: " t).
Qed.

Lemma fold_no_url_state lines acc cs :
  Forall (fun l => Js.startsWith l "URL: " = false) lines ->
  exists cs', fold_left extractSources_step lines (acc, cs) = (acc, cs').
Proof.
  intros Hall. pose proof (fold_no_url lines (acc, cs) Hall) as H.
  destruct (fold_left extractSources_step lines (acc, cs)) as [acc' cs'].
  simpl in H. subst acc'. eauto.
Qed.

Lemma split_blockBody (m : Metadata) (doc : option string) (rest : string) :
  Js.split Js.LF (blockBody m doc rest)
  = Js.split Js.LF ("Title: " +:+ Js.orElse (meta_title m) "Unknown")
    ++ Js.split Js.LF ("Source: " +:+ Js.orElse (meta_source m) "Unknown")
    ++ Js.split Js.LF ("URL: " +:+ Js.orElse (meta_url m) "N/A")
    ++ Js.split Js.LF ("Content: " +:+ showDoc doc)
    ++ Js.split Js.LF ("---" +:+ rest).
Proof.
  unfold blockBody.
  rewrite <- (append_assoc "Title: "), split_append_LF. f_equal.
  rewrite <- (append_assoc "Source: "), split_append_LF. f_equal.
  rewrite <- (append_assoc "URL: "), split_append_LF. f_equal.
  rewrite <- (append_assoc "Content: "), split_append_LF. reflexivity.
Qed.

Lemma content_lines_no_url (d : string) :
  Forall (fun l => Js.startsWith l "URL: " = false) (tail (Js.split Js.LF d)) ->
  Forall (fun l => Js.startsWith l "URL: " = false)
         (Js.split Js.LF ("Content: " +:+ d)).
Proof.
  destruct (split_nonempty d) as (h & t & Hd). rewrite Hd.
  rewrite (split_prepend "Content: " d h t eq_refl Hd).
  intros Hall. constructor; [reflexivity | exact Hall].
Qed.

(** Reading the block of a plain passage emits its citation, whatever the
    state left by the lines before it. *)
Lemma scan_block (p : Passage) (m : Metadata) (rest : string) acc cs :
  p_meta p = Some m -> plainPassage p = true ->
  exists cs',
    fold_left extractSources_step (Js.split Js.LF (blockBody m (p_doc p) rest)) (acc, cs)
    = fold_left extractSources_step (Js.split Js.LF ("---" +:+ rest))
                (acc ++ [citationOf p], cs').
Proof.
  intros Hm Hplain. unfold plainPassage in Hplain. rewrite Hm in Hplain.
  apply andb_prop in Hplain as [Hplain Hdoc].
  apply andb_prop in Hplain as [Hplain Hu].
  apply andb_prop in Hplain as [Ht Hs].
  apply negb_true_iff in Ht, Hs, Hu.
  rewrite split_blockBody.
  rewrite (split_plain ("Title: " +:+ _)) by (rewrite hasLF_append; now rewrite Ht).
  rewrite (split_plain ("Source: " +:+ _)) by (rewrite hasLF_append; now rewrite Hs).
  rewrite (split_plain ("URL: " +:+ _)) by (rewrite hasLF_append; now rewrite Hu).
  rewrite !fold_left_app. cbn [fold_left].
  rewrite step_title, step_source, step_url_field. cbn [src_title src_source src_url].
  rewrite !orElse_truthy by discriminate. cbn [andb].
  assert (Hlines : Forall (fun l => Js.startsWith l "URL: " = false)
                          (Js.split Js.LF ("Content: " +:+ showDoc (p_doc p)))).
  { apply content_lines_no_url. apply Forall_forall. intros l Hl.
    rewrite forallb_forall in Hdoc. apply list_elem_of_In in Hl.
    specialize (Hdoc l Hl). now apply negb_true_iff in Hdoc. }
  destruct (fold_no_url_state _ (acc ++ [mkSource
              (Some (Js.orElse (meta_title m) "Unknown"))
              (Some (Js.orElse (meta_source m) "Unknown"))
              (Some (Js.orElse (meta_url m) "N/A"))]) noSource Hlines) as [cs' ->].
  exists cs'. unfold citationOf. now rewrite Hm.
Qed.

Lemma scan_blocks (kept : list Passage) :
  Forall (fun p => plainPassage p = true) kept ->
  forall p m acc cs,
    p_meta p = Some m -> plainPassage p = true ->
    exists cs',
      fold_left extractSources_step
        (Js.split Js.LF (blockBody m (p_doc p) (Js.concat (map blockOf kept)))) (acc, cs)
      = (acc ++ map citationOf (p :: kept), cs').
Proof.
  induction kept as [|q kept IH]; intros Hall p m acc cs Hm Hplain.
  - change (Js.concat (map blockOf [])) with EmptyString.
    destruct (scan_block p m EmptyString acc cs Hm Hplain) as [cs' ->].
    exists cs'. reflexivity.
  - inversion Hall as [|? ? Hq Hrest]; subst.
    destruct (scan_block p m (Js.concat (map blockOf (q :: kept))) acc cs Hm Hplain)
      as [cs1 ->].
    assert (Hmq : exists mq, p_meta q = Some mq).
    { unfold plainPassage in Hq. destruct (p_meta q); [eauto | discriminate]. }
    destruct Hmq as [mq Hmq].
    rewrite map_cons, concat_cons, (blockOf_meta _ _ Hmq), docContext_append.
    rewrite (split_append_LF "---"), fold_left_app.
    change (Js.split Js.LF "---") with ["---"]. cbn [fold_left].
    change (extractSources_step (acc ++ [citationOf p], cs1) "---")
      with (acc ++ [citationOf p], cs1).
    destruct (IH Hrest q mq (acc ++ [citationOf p]) cs1 Hmq Hq) as [cs' ->].
    exists cs'. now rewrite <- app_assoc.
Qed.

(** C2, as amended. When every passage kept in the context is plain (its
    title, source and URL as printed hold no line break, and no line of its
    text starts with the URL field), [extractSources] on the text built by
    [buildContext] gives exactly one entry per kept passage, in order: the
    title, source and URL that its block prints (the metadata of the passage,
    or the default where a field is missing). *)
Theorem extractSources_reads_back (r : SearchResults) (maxLength : Z)
    (context : string) :
  buildContext r maxLength = Ok context ->
  Forall (fun p => plainPassage p = true) (included r maxLength) ->
  extractSources context = map citationOf (included r maxLength).
Proof.
  intros Hctx Hplain.
  pose proof (buildContext_included _ _ _ Hctx) as Heq.
  assert (Hmeta : Forall (fun p => is_Some (p_meta p)) (included r maxLength))
    by apply includedFrom_meta.
  revert Heq Hmeta Hplain. generalize (included r maxLength).
  intros [|p kept] Heq Hmeta Hplain.
  - subst context. reflexivity.
  - pose proof (trim_blocks (p :: kept) Hmeta ltac:(congruence)) as Hwhole.
    subst context.
    inversion Hmeta as [|? ? [m Hm] _]; subst.
    inversion Hplain as [|? ? Hp Hrest]; subst.
    rewrite map_cons, concat_cons, (blockOf_meta _ _ Hm), docContext_append in Hwhole |- *.
    injection Hwhole as ->.
    unfold extractSources, scan.
    destruct (scan_blocks kept Hrest p m [] noSource Hm Hp) as [cs' ->].
    reflexivity.
Qed.

Lemma extractSources_reads_back_witness :
  exists context,
    buildContext demoResults 4000 = Ok context
    /\ extractSources context = map citationOf (included demoResults 4000).
Proof.
  eexists. split; [reflexivity|].
  apply (extractSources_reads_back demoResults 4000); [reflexivity|].
  vm_compute. repeat constructor.
Defined.

(** C2, as stated, fails: a passage whose text quotes a title, a source and a
    URL line is kept once and cited twice. *)
Lemma extractSources_cites_quoted_fields :
  exists context,
    buildContext quotingResults 4000 = Ok context
    /\ length (included quotingResults 4000) = 1
    /\ extractSources context
       = [mkSource (Some "New story") (Some "Daily") (Some "http://daily.example/new");
          mkSource (Some "Old story") (Some "Reuters")
                   (Some "http://reuters.example/old")]
    /\ extractSources context <> map citationOf (included quotingResults 4000).
Proof.
  eexists. split; [reflexivity|]. split; [reflexivity|]. split; [reflexivity|].
  vm_compute. discriminate.
Qed.

(** ** The session log *)

Lemma slice_last (n : nat) {A : Type} (l : list A) :
  Js.slice (- Z.of_nat (S n)) l = drop (length l - S n) l.
Proof.
  unfold Js.slice.
  replace (- Z.of_nat (S n) <? 0)%Z with true by (symmetry; apply Z.ltb_lt; lia).
  f_equal. lia.
Qed.

Lemma slice_50 {A : Type} (l : list A) : Js.slice (-50) l = drop (length l - 50) l.
Proof. apply (slice_last 49). Qed.

Lemma length_slice_50 {A : Type} (l : list A) :
  length (Js.slice (-50) l) = Nat.min 50 (length l).
Proof. rewrite slice_50, length_drop. lia. Qed.

Lemma slice_50_suffix {A : Type} (l : list A) : Js.slice (-50) l `suffix_of` l.
Proof. rewrite slice_50. apply suffix_drop. Qed.

(** Trimming, appending and trimming again keeps the last 50 of the whole. *)
Lemma slice_50_slice_50_app {A : Type} (a b : list A) :
  Js.slice (-50) (Js.slice (-50) a ++ b) = Js.slice (-50) (a ++ b).
Proof.
  rewrite !slice_50, !length_app, length_drop.
  destruct (decide (length a <= 50)) as [Hle|Hgt].
  - replace (length a - 50) with 0 by lia. simpl. f_equal. lia.
  - rewrite <- (drop_app_le a b (length a - 50)) by lia.
    rewrite drop_drop. f_equal. lia.
Qed.

Section Sessions.
Context `{Collaborators}.

(** What a call of [addToSessionHistory] does, by the state of the link. *)
Lemma addToSessionHistory_cases (sessionId : string) (message : Message) (w : World) :
  addToSessionHistory sessionId message w
  = if negb (isConnected w) then (Ok [], w)
    else if clientReady w then
      let log := Js.slice (-50) (storedLog sessionId w
                                 ++ [withTimestamp message (now w)]) in
      (Ok log, setSessions (<[sessionId := (sessionTtl, log)]> (sessions w)) w)
    else (Throw clientClosed, w).
Proof.
  unfold addToSessionHistory, getSessionHistory, tryCatch, bind, gets, ret, throw,
    client_get_session, client_setEx_session, storedLog, sessionTtl.
  destruct (isConnected w) eqn:Hc; simpl; [|reflexivity].
  rewrite Hc. simpl.
  destruct (clientReady w) eqn:Hr; simpl; rewrite ?Hr; [|reflexivity].
  destruct (sessions w !! sessionId) as [[ttl log]|]; reflexivity.
Qed.

Lemma slice_50_snoc_nonempty {A : Type} (l : list A) (x : A) :
  exists y ys, Js.slice (-50) (l ++ [x]) = y :: ys.
Proof.
  pose proof (length_slice_50 (l ++ [x])) as Hlen.
  rewrite length_app in Hlen. cbn [length] in Hlen.
  destruct (Js.slice (-50) (l ++ [x])) as [|y ys]; [cbn [length] in Hlen; lia | eauto].
Qed.

Lemma addMessage_cases (sessionId role content : string) (metadata : MessageMeta)
    (w : World) :
  addMessage sessionId role content metadata w
  = if missing sessionId then (Throw sessionIdRequired, w)
    else addToSessionHistory sessionId
           (mkMessage role content metadata (uuidv4 (uuids w)) None)
           (setUuids (S (uuids w)) w).
Proof. unfold addMessage, bind, gets, modify, throw. now destruct (missing sessionId). Qed.

Lemma storedLog_setSessions_insert (sid s : string) (ttl : Z) (log : list Message)
    (w : World) :
  storedLog sid (setSessions (<[s := (ttl, log)]> (sessions w)) w)
  = if decide (s = sid) then log else storedLog sid w.
Proof.
  unfold storedLog, setSessions. simpl. rewrite lookup_insert.
  destruct (decide (s = sid)); reflexivity.
Qed.

Lemma storedLog_setSessions_delete (sid s : string) (w : World) :
  storedLog sid (setSessions (delete s (sessions w)) w)
  = if decide (s = sid) then [] else storedLog sid w.
Proof.
  unfold storedLog, setSessions. simpl. rewrite lookup_delete.
  destruct (decide (s = sid)); reflexivity.
Qed.

Lemma clearSession_cases (sessionId : string) (w : World) :
  snd (clearSession sessionId w) = w
  \/ snd (clearSession sessionId w)
     = setSessions (delete sessionId (sessions w)) w.
Proof.
  unfold clearSession, tryCatch, bind, gets, ret, client_del_session.
  destruct (isConnected w); simpl; [|now left].
  destruct (clientReady w); simpl; [|now left].
  destruct (sessions w !! sessionId); simpl; [now right | now left].
Qed.

(** What a call that appends does to the log of a session: nothing, with no
    message appended to it; or, with the link up, the log becomes the last 50
    of itself followed by the one appended message. The link is as before. *)
Lemma append_effect (sessionId : string) (ev : Event) (w : World) :
  isAppend ev = true ->
  isConnected (stepWorld w ev) = isConnected w
  /\ clientReady (stepWorld w ev) = clientReady w
  /\ ((storedLog sessionId (stepWorld w ev) = storedLog sessionId w
       /\ appendedBy sessionId ev w = [])
      \/ (storedLog sessionId (stepWorld w ev)
          = Js.slice (-50) (storedLog sessionId w ++ appendedBy sessionId ev w)
          /\ length (appendedBy sessionId ev w) = 1)).
Proof.
  destruct ev as [s message|s r c m| | | |]; try discriminate; intros _;
    unfold appendedBy; cbn [stepWorld requestedBy].
  - rewrite addToSessionHistory_cases.
    destruct (isConnected w) eqn:Hc; simpl;
      [|rewrite Hc; repeat split; now left].
    destruct (clientReady w) eqn:Hr; simpl;
      [|rewrite Hc, Hr; repeat split; now left].
    rewrite Hc, Hr, storedLog_setSessions_insert.
    repeat split.
    destruct (decide (s = sessionId)) as [->|Hne].
    + rewrite String.eqb_refl. now right.
    + apply String.eqb_neq in Hne. rewrite Hne. now left.
  - rewrite addMessage_cases.
    destruct (missing s); simpl.
    { rewrite andb_false_r. repeat split. left.
      split; [reflexivity | now destruct (isConnected w && clientReady w)]. }
    rewrite addToSessionHistory_cases. simpl.
    destruct (isConnected w) eqn:Hc; simpl;
      [|rewrite Hc; repeat split; now left].
    destruct (clientReady w) eqn:Hr; simpl;
      [|rewrite Hc, Hr; repeat split; now left].
    rewrite Hc, Hr, andb_true_r.
    change (setSessions ?m (setUuids ?n w)) with (setUuids n (setSessions m w)).
    change (storedLog sessionId (setUuids ?n ?w')) with (storedLog sessionId w').
    change (storedLog s (setUuids ?n ?w')) with (storedLog s w').
    rewrite storedLog_setSessions_insert.
    repeat split.
    destruct (decide (s = sessionId)) as [->|Hne].
    + rewrite String.eqb_refl. now right.
    + apply String.eqb_neq in Hne. rewrite Hne. now left.
Qed.

Lemma logicalHistory_cons sessionId ev events w :
  logicalHistory sessionId (ev :: events) w
  = appendedBy sessionId ev w ++ logicalHistory sessionId events (stepWorld w ev).
Proof. reflexivity. Qed.

(** One event keeps the stored log a suffix of the history, and within 50. *)
Lemma step_invariant (sessionId : string) (ev : Event) (w : World)
    (history : list Message) :
  storedLog sessionId w `suffix_of` history ->
  length (storedLog sessionId w) <= 50 ->
  storedLog sessionId (stepWorld w ev)
    `suffix_of` (history ++ appendedBy sessionId ev w)
  /\ length (storedLog sessionId (stepWorld w ev)) <= 50.
Proof.
  intros Hsuf Hlen.
  destruct (isAppend ev) eqn:Happ.
  - destruct (append_effect sessionId ev w Happ)
      as (_ & _ & [[-> ->] | [-> _]]).
    + rewrite app_nil_r. now split.
    + split.
      * etrans; [apply slice_50_suffix|]. now apply suffix_app.
      * rewrite length_slice_50. lia.
  - assert (Hnone : appendedBy sessionId ev w = [])
      by (unfold appendedBy; destruct ev; try discriminate;
          now destruct (isConnected w && clientReady w)).
    rewrite Hnone, app_nil_r.
    destruct ev as [s message|s r c m|s|s|c r|t]; try discriminate; simpl.
    + destruct (clearSession_cases s w) as [-> | ->]; [now split|].
      rewrite storedLog_setSessions_delete.
      destruct (decide (s = sessionId)); [|now split].
      split; [apply suffix_nil | simpl; lia].
    + rewrite storedLog_setSessions_delete.
      destruct (decide (s = sessionId)); [|now split].
      split; [apply suffix_nil | simpl; lia].
    + now split.
    + now split.
Qed.

Lemma run_invariant (sessionId : string) (events : list Event) (w : World)
    (history : list Message) :
  storedLog sessionId w `suffix_of` history ->
  length (storedLog sessionId w) <= 50 ->
  storedLog sessionId (runEvents events w)
    `suffix_of` (history ++ logicalHistory sessionId events w)
  /\ length (storedLog sessionId (runEvents events w)) <= 50.
Proof.
  revert w history. induction events as [|ev events IH]; intros w history Hsuf Hlen.
  - simpl. rewrite app_nil_r. now split.
  - rewrite logicalHistory_cons, app_assoc. unfold runEvents. simpl.
    destruct (step_invariant sessionId ev w history Hsuf Hlen) as [Hsuf' Hlen'].
    apply (IH _ _ Hsuf' Hlen').
Qed.

Lemma runEvents_app (evs1 evs2 : list Event) (w : World) :
  runEvents (evs1 ++ evs2) w = runEvents evs2 (runEvents evs1 w).
Proof. unfold runEvents. apply fold_left_app. Qed.

(** Over a run of appends, the stored log is the last 50 of what was stored
    before followed by what was appended. *)
Lemma run_appends_fifo (sessionId : string) (events : list Event) (w : World) :
  Forall (fun ev => isAppend ev = true) events ->
  length (storedLog sessionId w) <= 50 ->
  storedLog sessionId (runEvents events w)
  = Js.slice (-50) (storedLog sessionId w ++ logicalHistory sessionId events w).
Proof.
  revert w. induction events as [|ev events IH]; intros w Hall Hlen.
  - simpl. rewrite app_nil_r, slice_50.
    replace (length (storedLog sessionId w) - 50) with 0 by lia. reflexivity.
  - inversion Hall as [|? ? Hev Hrest]; subst.
    rewrite logicalHistory_cons.
    change (runEvents (ev :: events) w) with (runEvents events (stepWorld w ev)).
    destruct (append_effect sessionId ev w Hev) as (_ & _ & [[Hs Ha] | [Hs _]]).
    + rewrite IH by (rewrite ?Hs; assumption). now rewrite Hs, Ha.
    + rewrite IH; [| exact Hrest | rewrite Hs, length_slice_50; lia].
      rewrite Hs, slice_50_slice_50_app. now rewrite <- app_assoc.
Qed.

(** When every appending call finds the link up, what was appended is what
    the calls asked for. *)
Lemma logicalHistory_all_up (sessionId : string) (events : list Event) (w : World) :
  callsFindLinkUp events w = true ->
  logicalHistory sessionId events w = fullHistory sessionId events w.
Proof.
  revert w. induction events as [|ev events IH]; intros w Hup; [reflexivity|].
  cbn [callsFindLinkUp] in Hup. apply andb_true_iff in Hup as [Hev Hrest].
  cbn [logicalHistory fullHistory]. rewrite (IH _ Hrest). f_equal.
  unfold appendedBy.
  destruct (isConnected w && clientReady w); [reflexivity|].
  destruct ev; try discriminate; reflexivity.
Qed.

End Sessions.

(** The claim as written fails: with the link up, message 1 is appended; the
    link goes down and the call for message 2 is turned away; the link comes
    back and message 3 is appended. The stored log is then messages 1 and 3,
    which is no suffix of the messages 1, 2, 3 that the calls asked for. *)
Lemma session_log_skips_turned_away :
  let stored := storedLog "s" (runEvents (H := demoCollaborators) interruptedEvents
                                          startup) in
  let asked := fullHistory (H := demoCollaborators) "s" interruptedEvents startup in
  map content stored = [sampleText 1; sampleText 3]
  /\ map content asked = [sampleText 1; sampleText 2; sampleText 3]
  /\ ~ stored `suffix_of` asked.
Proof.
  split; [reflexivity|]. split; [reflexivity|].
  intros [k Hk]. apply (f_equal (map content)) in Hk. rewrite map_app in Hk.
  remember (map content k) as ks eqn:E. clear E.
  destruct ks as [|x [|y [|z ks]]]; vm_compute in Hk; try discriminate Hk.
  injection Hk as _ _ _ Hk. destruct ks; discriminate Hk.
Qed.

(** C1. Over every history of a process (messages sent to any session through
    [addMessage] or [addToSessionHistory], clears, expiries, the link going up
    and down), the log stored for a session has at most 50 messages and is a
    suffix, newest last, of the messages appended to that session, which are
    those of the calls made while the link was up; it is a suffix of all the
    messages the calls asked for when every call found the link up. Over any
    stretch of appends, the stored log is the last 50 of what was stored
    followed by what was appended: the oldest messages are the ones dropped,
    and a call made with the link down stores nothing. *)
Theorem session_log_bounded_suffix `{Collaborators} (events : list Event)
    (sessionId : string) :
  let w := runEvents events startup in
  length (storedLog sessionId w) <= 50
  /\ storedLog sessionId w `suffix_of` logicalHistory sessionId events startup
  /\ (callsFindLinkUp events startup = true ->
      storedLog sessionId w `suffix_of` fullHistory sessionId events startup)
  /\ forall evs1 evs2,
       events = evs1 ++ evs2 ->
       Forall (fun ev => isAppend ev = true) evs2 ->
       storedLog sessionId w
       = Js.slice (-50) (storedLog sessionId (runEvents evs1 startup)
                         ++ logicalHistory sessionId evs2 (runEvents evs1 startup)).
Proof.
  intros w.
  assert (Hstart : forall evs,
             storedLog sessionId (runEvents evs startup)
               `suffix_of` logicalHistory sessionId evs startup
             /\ length (storedLog sessionId (runEvents evs startup)) <= 50).
  { intros evs.
    assert (Hempty : storedLog sessionId startup = [])
      by (unfold storedLog; simpl; now rewrite lookup_empty).
    apply (run_invariant sessionId evs startup []).
    - apply suffix_nil.
    - rewrite Hempty. simpl. lia. }
  split; [apply Hstart|]. split; [apply Hstart|].
  split.
  { intros Hup. rewrite <- (logicalHistory_all_up sessionId events startup Hup).
    apply Hstart. }
  intros evs1 evs2 -> Hall. subst w. rewrite runEvents_app.
  apply run_appends_fifo; [exact Hall | apply Hstart].
Qed.

Lemma session_log_bounded_suffix_witness :
  storedLog "s" (runEvents (H := demoCollaborators) (sampleEvents 51) startup)
  = Js.slice (-50)
      (storedLog "s" (runEvents (H := demoCollaborators) [EvLink true true] startup)
       ++ logicalHistory (H := demoCollaborators) "s"
            (map (fun k => EvAddMessage "s" "user" (sampleText k) emptyMeta) (seq 0 51))
            (runEvents (H := demoCollaborators) [EvLink true true] startup)).
Proof.
  apply (proj2 (proj2 (proj2 (session_log_bounded_suffix (H := demoCollaborators)
                                (sampleEvents 51) "s")))
               [EvLink true true]
               (map (fun k => EvAddMessage "s" "user" (sampleText k) emptyMeta)
                    (seq 0 51))).
  - reflexivity.
  - vm_compute. repeat constructor.
Defined.

(** After 51 appends the log holds 50 messages and the first one is gone. *)
Example fifty_one_appends :
  let log := storedLog "s" (runEvents (H := demoCollaborators) (sampleEvents 51) startup) in
  length log = 50
  /\ map content log = map sampleText (seq 1 50).
Proof. vm_compute. split; reflexivity. Qed.

(** ** The conversation slice *)

Lemma getHistory_cases (sessionId : string) (w : World) :
  getHistory sessionId w
  = if missing sessionId then (Throw sessionIdRequired, w)
    else (Ok (if isConnected w && clientReady w then storedLog sessionId w else []), w).
Proof.
  unfold getHistory, getSessionHistory, tryCatch, bind, gets, ret, throw,
    client_get_session, storedLog.
  destruct (missing sessionId); [reflexivity|].
  destruct (isConnected w); simpl; [|reflexivity].
  destruct (clientReady w); simpl; [|reflexivity].
  destruct (sessions w !! sessionId) as [[ttl log]|]; reflexivity.
Qed.

(** For a count of at least one, [getContextForRAG] gives the last
    [maxMessages] messages of the log it reads, in order, as turns. *)
Lemma getContextForRAG_last (sessionId : string) (n : nat) (w : World) :
  missing sessionId = false ->
  isConnected w = true -> clientReady w = true ->
  exists turns,
    getContextForRAG sessionId (Z.of_nat (S n)) w = (Ok turns, w)
    /\ turns = map turnOf (drop (length (storedLog sessionId w) - S n)
                                (storedLog sessionId w))
    /\ length turns <= S n.
Proof.
  intros Hid Hc Hr. eexists. split; [|split; [reflexivity|]].
  - unfold getContextForRAG, bind, ret. rewrite getHistory_cases, Hid, Hc, Hr. simpl andb.
    cbv iota beta. now rewrite slice_last.
  - rewrite length_map, length_drop. lia.
Qed.

(** C7 fails at a count of zero: [slice(-0)] is [slice(0)], the whole log. *)
Lemma getContextForRAG_zero_gives_whole_log :
  let w := runEvents (H := demoCollaborators) (sampleEvents 3) startup in
  map content (storedLog "s" w) = ["0"; "1"; "2"]
  /\ fst (getContextForRAG "s" 0 w)
     = Ok [mkTurn "user" "0"; mkTurn "user" "1"; mkTurn "user" "2"].
Proof. vm_compute. split; reflexivity. Qed.

(** ** Writing a session while the link is down *)

(** C8, as amended. While [isConnected] is false, [addToSessionHistory] throws
    nothing: it returns the empty list and leaves the cache as it is. With the
    flag set and the client not ready, the error of the client is thrown again
    and nothing is written. With the link up, the value under the session key
    is replaced by the last 50 of the stored log followed by the stamped
    message, other keys are untouched, and writing that value once more
    changes nothing. *)
Theorem addToSessionHistory_by_link `{Collaborators} (sessionId : string)
    (message : Message) (w : World) :
  (isConnected w = false ->
     addToSessionHistory sessionId message w = (Ok [], w))
  /\ (isConnected w = true -> clientReady w = false ->
     addToSessionHistory sessionId message w = (Throw clientClosed, w))
  /\ (isConnected w = true -> clientReady w = true ->
     let log := Js.slice (-50) (storedLog sessionId w
                                ++ [withTimestamp message (now w)]) in
     let w' := snd (addToSessionHistory sessionId message w) in
     fst (addToSessionHistory sessionId message w) = Ok log
     /\ sessions w' !! sessionId = Some (sessionTtl, log)
     /\ (forall other, other <> sessionId -> sessions w' !! other = sessions w !! other)
     /\ client_setEx_session sessionId sessionTtl log w' = (Ok tt, w')).
Proof.
  rewrite addToSessionHistory_cases. split; [|split].
  - now intros ->.
  - now intros -> ->.
  - intros Hc Hr. rewrite Hc, Hr. cbv zeta. simpl. repeat split.
    + apply lookup_insert_eq.
    + intros other Hne. now apply lookup_insert_ne.
    + unfold client_setEx_session, setSessions. simpl. rewrite Hr.
      now rewrite insert_insert_eq.
Qed.

Lemma addToSessionHistory_by_link_witness :
  addToSessionHistory (H := demoCollaborators) "s" (sampleMessage 0) startup
  = (Ok [], startup).
Proof.
  apply (proj1 (addToSessionHistory_by_link (H := demoCollaborators)
                  "s" (sampleMessage 0) startup)).
  reflexivity.
Defined.

(** C8, as stated, fails: a write made while the link is down does not fail. *)
Lemma addToSessionHistory_down_returns_empty :
  isConnected startup = false
  /\ fst (addToSessionHistory (H := demoCollaborators) "s" (sampleMessage 0) startup)
     = Ok []
  /\ ~ (exists e, fst (addToSessionHistory (H := demoCollaborators) "s"
                        (sampleMessage 0) startup) = Throw e).
Proof.
  split; [reflexivity|]. split; [reflexivity|]. intros [e He]. discriminate He.
Qed.

(** ** Retrieval and the chat pipeline *)

Lemma quiet_ret {A : Type} (a : A) : quiet (ret a).
Proof. intros w. reflexivity. Qed.

Lemma quiet_throw {A : Type} (e : JsError) : quiet (@throw A e).
Proof. intros w. reflexivity. Qed.

Lemma quiet_gets {A : Type} (f : World -> A) : quiet (gets f).
Proof. intros w. reflexivity. Qed.

Lemma quiet_bind {A B : Type} (m : M A) (f : A -> M B) :
  quiet m -> (forall a, quiet (f a)) -> quiet (bind m f).
Proof.
  intros Hm Hf w. unfold bind. specialize (Hm w).
  destruct (m w) as [[a|e] w']; simpl in *; [|exact Hm].
  now rewrite Hf.
Qed.

Lemma quiet_tryCatch {A : Type} (m : M A) (h : JsError -> M A) :
  quiet m -> (forall e, quiet (h e)) -> quiet (tryCatch m h).
Proof.
  intros Hm Hh w. unfold tryCatch. specialize (Hm w).
  destruct (m w) as [[a|e] w']; simpl in *; [exact Hm|].
  now rewrite Hh.
Qed.

Lemma quiet_modify (f : World -> World) :
  (forall w, calls (f w) = calls w) -> quiet (modify f).
Proof. intros Hf w. unfold generations, modify. simpl. now rewrite Hf. Qed.

Lemma quiet_call {A : Type} (c : Call) (r : Result A) :
  isGenerate c = false -> quiet (call c r).
Proof.
  intros Hc w. unfold generations, call. simpl.
  rewrite filter_app, length_app, filter_cons_False by (rewrite Hc; discriminate).
  simpl. lia.
Qed.

Lemma quiet_if {A : Type} (b : bool) (m1 m2 : M A) :
  quiet m1 -> quiet m2 -> quiet (if b then m1 else m2).
Proof. now destruct b. Qed.

Lemma quiet_client_get_query (queryHash : string) : quiet (client_get_query queryHash).
Proof. intros w. unfold client_get_query. now destruct (clientReady w). Qed.

Lemma quiet_client_setEx_query (queryHash : string) (ttl : Z) (value : SearchResults) :
  quiet (client_setEx_query queryHash ttl value).
Proof. intros w. unfold client_setEx_query. now destruct (clientReady w). Qed.

Lemma quiet_getCachedQuery (queryHash : string) : quiet (getCachedQuery queryHash).
Proof.
  unfold getCachedQuery. apply quiet_tryCatch; [|intros; apply quiet_ret].
  apply quiet_bind; [apply quiet_gets|]. intros connected.
  apply quiet_if; [apply quiet_ret|].
  apply quiet_bind; [apply quiet_client_get_query | intros; apply quiet_ret].
Qed.

Lemma quiet_cacheQuery (queryHash : string) (results : SearchResults) (ttl : Z) :
  quiet (cacheQuery queryHash results ttl).
Proof.
  unfold cacheQuery. apply quiet_tryCatch; [|intros; apply quiet_ret].
  apply quiet_bind; [apply quiet_gets|]. intros connected.
  apply quiet_if; [apply quiet_ret | apply quiet_client_setEx_query].
Qed.

Lemma quiet_loadEmbedder `{Collaborators} : quiet loadEmbedder.
Proof.
  unfold loadEmbedder. apply quiet_bind; [apply quiet_gets|]. intros loaded.
  apply quiet_if; [|apply quiet_ret].
  apply quiet_bind; [now apply quiet_call|]. intros _.
  now apply quiet_modify.
Qed.

Lemma quiet_getCollection `{Collaborators} : quiet getCollection.
Proof.
  unfold getCollection. apply quiet_bind; [apply quiet_gets|]. intros created.
  apply quiet_bind; [|intros; now apply quiet_call].
  apply quiet_if; [now apply quiet_modify | apply quiet_ret].
Qed.

(** Retrieval never calls the hosted model. *)
Lemma quiet_searchChroma `{Collaborators} (query : string) : quiet (searchChroma query).
Proof.
  unfold searchChroma. apply quiet_tryCatch; [|intros; apply quiet_throw].
  apply quiet_bind; [apply quiet_getCachedQuery|]. intros [results|];
    [apply quiet_ret|].
  apply quiet_bind; [apply quiet_loadEmbedder|]. intros _.
  apply quiet_bind; [now apply quiet_call|]. intros queryEmbedding.
  apply quiet_bind; [apply quiet_getCollection|]. intros _.
  apply quiet_bind; [now apply quiet_call|]. intros results.
  apply quiet_bind; [apply quiet_cacheQuery | intros; apply quiet_ret].
Qed.


Lemma getCachedQuery_state (queryHash : string) (w : World) :
  snd (getCachedQuery queryHash w) = w.
Proof.
  unfold getCachedQuery, tryCatch, bind, gets, ret, client_get_query.
  destruct (isConnected w); simpl; [|reflexivity].
  destruct (clientReady w); reflexivity.
Qed.



(** The first search calls the model and the store, the second one does not. *)
Example second_search_is_served_from_cache :
  let w1 := snd (searchChroma (H := demoCollaborators) "q" linkUp) in
  let w2 := snd (searchChroma (H := demoCollaborators) "q" w1) in
  calls w1 = [CallPipeline; CallEmbed "q"; CallGetCollection; CallQuery [1 # 2] 5]
  /\ calls w2 = calls w1.
Proof. vm_compute. split; reflexivity. Qed.

(** C5. When retrieval gives a result with no document, [processQuery]
    answers with the fixed message that nothing was found, no sources and no
    token usage, and the hosted model is not called. *)
Theorem processQuery_nothing_found `{Collaborators} (query : string)
    (conversationHistory : list Turn) (w w' : World) (results : SearchResults) :
  searchChroma query w = (Ok results, w') ->
  firstRow (documents results) = [] ->
  processQuery query conversationHistory w = (Ok (mkAnswer nothingFound [] None), w')
  /\ generations (snd (processQuery query conversationHistory w)) = generations w.
Proof.
  intros Hsearch Hempty.
  assert (Heq : processQuery query conversationHistory w
                = (Ok (mkAnswer nothingFound [] None), w')).
  { unfold processQuery, tryCatch, bind. rewrite Hsearch, Hempty. reflexivity. }
  split; [exact Heq|]. rewrite Heq. simpl.
  pose proof (quiet_searchChroma query w) as Hq. now rewrite Hsearch in Hq.
Qed.

Lemma processQuery_nothing_found_witness :
  fst (processQuery (H := collaboratorsReturning emptyResults) "q" [] linkUp)
  = Ok (mkAnswer nothingFound [] None).
Proof.
  pose proof (processQuery_nothing_found (H := collaboratorsReturning emptyResults)
                "q" [] linkUp _ emptyResults eq_refl eq_refl) as [Heq _].
  now rewrite Heq.
Defined.

Lemma buildContext_empty_included (r : SearchResults) (maxLength : Z) :
  buildContext r maxLength = Ok EmptyString -> included r maxLength = [].
Proof.
  intros Hctx. pose proof (buildContext_included _ _ _ Hctx) as Heq.
  pose proof (includedFrom_meta (passages r) maxLength 0) as Hmeta.
  fold (included r maxLength) in Hmeta.
  destruct (included r maxLength) as [|p kept]; [reflexivity|].
  pose proof (trim_blocks (p :: kept) Hmeta ltac:(congruence)) as Hwhole.
  rewrite <- Heq in Hwhole.
  inversion Hmeta as [|? ? [m Hm] _]; subst.
  rewrite map_cons, concat_cons, (blockOf_meta _ _ Hm), docContext_append in Hwhole.
  discriminate Hwhole.
Qed.

(** C6. When retrieval gives documents and the context built from them is
    the empty text (no passage was kept: all were skipped or the first one left
    did not fit), [processQuery] answers with the fixed message that the
    articles are not closely related, no sources and no token usage, and the
    hosted model is not called. *)
Theorem processQuery_not_closely_related `{Collaborators} (query : string)
    (conversationHistory : list Turn) (w w' : World) (results : SearchResults) :
  searchChroma query w = (Ok results, w') ->
  firstRow (documents results) <> [] ->
  buildContext results MAX_CONTEXT_LENGTH = Ok EmptyString ->
  processQuery query conversationHistory w
  = (Ok (mkAnswer notCloselyRelated [] None), w')
  /\ generations (snd (processQuery query conversationHistory w)) = generations w
  /\ included results MAX_CONTEXT_LENGTH = [].
Proof.
  intros Hsearch Hdocs Hctx.
  assert (Heq : processQuery query conversationHistory w
                = (Ok (mkAnswer notCloselyRelated [] None), w')).
  { unfold processQuery, tryCatch, bind, lift. rewrite Hsearch.
    destruct (firstRow (documents results)); [congruence|].
    rewrite Hctx. reflexivity. }
  split; [exact Heq|]. split.
  - rewrite Heq. simpl.
    pose proof (quiet_searchChroma query w) as Hq. now rewrite Hsearch in Hq.
  - now apply buildContext_empty_included.
Qed.

Lemma processQuery_not_closely_related_witness :
  fst (processQuery (H := collaboratorsReturning farResults) "q" [] linkUp)
  = Ok (mkAnswer notCloselyRelated [] None).
Proof.
  pose proof (processQuery_not_closely_related (H := collaboratorsReturning farResults)
                "q" [] linkUp _ farResults eq_refl ltac:(discriminate) eq_refl)
    as [Heq _].
  now rewrite Heq.
Defined.

(** * Further properties of the services *)

(** ** The context builder: when it is empty, when it throws *)

Lemma accumulate_all_far ps maxLength context currentLength :
  Forall (fun p => tooFar (p_distance p) = true) ps ->
  accumulate ps maxLength context currentLength = Ok context.
Proof.
  induction ps as [|p ps IH]; intros Hall; [reflexivity|].
  inversion Hall as [|? ? Hp Hps]; subst. simpl. rewrite Hp. now apply IH.
Qed.

(** X1. When every retrieved passage is further than 0.8 (in particular when
    nothing was retrieved), [buildContext] returns the empty text for every
    budget, also when metadata is missing: a passage that is skipped is never
    formatted. *)
Theorem buildContext_all_far (r : SearchResults) (maxLength : Z) :
  Forall (fun p => tooFar (p_distance p) = true) (passages r) ->
  buildContext r maxLength = Ok EmptyString.
Proof.
  intros Hall. rewrite buildContext_accumulate.
  now rewrite (accumulate_all_far _ _ _ _ Hall).
Qed.

Lemma buildContext_all_far_witness :
  buildContext (mkSearchResults (Some [[Some "Weather"; Some "Sports"]])
                                (Some [[None]])
                                (Some [[Some (9 # 10); Some (81 # 100)]]))
               4000
  = Ok EmptyString.
Proof. apply buildContext_all_far. vm_compute. repeat constructor. Defined.

Lemma accumulate_throws_iff ps maxLength context currentLength :
  (exists e, accumulate ps maxLength context currentLength = Throw e)
  <-> exists p, filter (fun p => near p = true) ps
                  !! length (includedFrom ps maxLength currentLength) = Some p
                /\ p_meta p = None.
Proof.
  revert context currentLength.
  induction ps as [|q ps IH]; intros context currentLength; simpl.
  - split; [intros [e He]; discriminate | intros (p & Hp & _); discriminate].
  - destruct (tooFar (p_distance q)) eqn:Hfar.
    + rewrite filter_cons_False by (unfold near; rewrite Hfar; discriminate).
      apply IH.
    + rewrite filter_cons_True by (unfold near; now rewrite Hfar).
      destruct (p_meta q) as [m|] eqn:Hm.
      * destruct (currentLength + strlen (docContext m (p_doc q)) >? maxLength)%Z.
        -- split; [intros [e He]; discriminate|].
           intros (p & [= <-] & Hnone). congruence.
        -- simpl. apply IH.
      * split; [intros _; exists q; now split | intros _; eauto].
Qed.

Lemma buildContext_error (r : SearchResults) (maxLength : Z) (e : JsError) :
  buildContext r maxLength = Throw e -> exists msg, e = TypeError msg.
Proof.
  rewrite buildContext_accumulate.
  assert (Hty : forall ps context currentLength e,
             accumulate ps maxLength context currentLength = Throw e ->
             exists msg, e = TypeError msg).
  { induction ps as [|q ps IH]; intros context currentLength e'; simpl;
      [discriminate|].
    destruct (tooFar (p_distance q)); [apply IH|].
    destruct (p_meta q) as [m|]; [|intros [= <-]; eauto].
    destruct (currentLength + strlen (docContext m (p_doc q)) >? maxLength)%Z;
      [discriminate | apply IH]. }
  destruct (accumulate (passages r) maxLength EmptyString 0) as [out|e0] eqn:Hacc;
    [discriminate|].
  intros [= <-]. eapply Hty, Hacc.
Qed.

(** X2. [buildContext] throws exactly when the first passage that is near
    enough and not kept in the context has no metadata; what it throws is a
    type error. A passage without metadata is harmless when it is too far or
    comes after the budget stopped the loop. *)
Theorem buildContext_throws_iff (r : SearchResults) (maxLength : Z) :
  ((exists e, buildContext r maxLength = Throw e)
   <-> exists p, filter (fun p => near p = true) (passages r)
                   !! length (included r maxLength) = Some p
                 /\ p_meta p = None)
  /\ forall e, buildContext r maxLength = Throw e -> exists msg, e = TypeError msg.
Proof.
  rewrite buildContext_accumulate. split.
  - rewrite <- (accumulate_throws_iff (passages r) maxLength EmptyString 0).
    destruct (accumulate (passages r) maxLength EmptyString 0) as [out|e0].
    + split; intros [e He]; discriminate.
    + split; intros _; eauto.
  - rewrite <- buildContext_accumulate. apply buildContext_error.
Qed.

Lemma buildContext_throws_iff_witness :
  exists msg, TypeError "Cannot read properties of undefined" = TypeError msg.
Proof.
  apply (proj2 (buildContext_throws_iff brokenResults 4000)). reflexivity.
Defined.

(** ** The citation extractor: how many entries, and where they come from *)

Lemma fold_entries_bound lines acc cs :
  length (fst (fold_left extractSources_step lines (acc, cs)))
  <= length acc + length (List.filter isUrlLine lines).
Proof.
  revert acc cs. induction lines as [|line lines IH]; intros acc cs; simpl; [lia|].
  unfold isUrlLine at 1. destruct (Js.startsWith line "URL: ") eqn:Hurl.
  - rewrite step_url by exact Hurl.
    destruct (Js.truthy (src_title cs) && Js.truthy (src_source cs)).
    + etrans; [apply IH|]. rewrite length_app. simpl. lia.
    + etrans; [apply IH|]. simpl. lia.
  - pose proof (step_other acc cs line Hurl) as Hfst.
    destruct (extractSources_step (acc, cs) line) as [acc' cs']. simpl in Hfst.
    subst acc'. apply IH.
Qed.

(** X3. [extractSources] returns at most one entry per line of the text that
    starts with the URL field; a text without such a line has no source. *)
Theorem extractSources_at_most_url_lines (context : string) :
  length (extractSources context)
  <= length (List.filter isUrlLine (Js.split Js.LF context)).
Proof. unfold extractSources, scan. apply (fold_entries_bound _ [] noSource). Qed.

Lemma startsWith_rest (p line : string) :
  Js.startsWith line p = true -> exists rest, line = p +:+ rest.
Proof.
  unfold Js.startsWith. revert line. induction p as [|c p IH]; intros line.
  - intros _. now exists line.
  - destruct line as [|d line]; [discriminate|].
    intros H. pose proof (prefix_head _ _ _ _ H) as <-.
    change (String.prefix (String c p) (String c line))
      with (if ascii_dec c c then String.prefix p line else false) in H.
    destruct (ascii_dec c c); [|discriminate].
    destruct (IH line H) as [rest ->]. now exists rest.
Qed.

Lemma fold_readOff (all lines : list string) acc cs :
  (forall l, In l lines -> In l all) ->
  Forall (readOff all) acc ->
  fromLine "Title: " all (src_title cs) ->
  fromLine "Source: " all (src_source cs) ->
  Forall (readOff all) (fst (fold_left extractSources_step lines (acc, cs))).
Proof.
  revert acc cs. induction lines as [|line lines IH]; intros acc cs Hsub Hacc Ht Hs;
    [exact Hacc|].
  assert (Hline : In line all) by (apply Hsub; now left).
  assert (Hsub' : forall l, In l lines -> In l all) by (intros l Hl; apply Hsub; now right).
  cbn [fold_left].
  destruct (Js.startsWith line "URL: ") eqn:Hurl.
  - rewrite step_url by exact Hurl.
    assert (Hu : fromLine "URL: " all (Some (Js.replace "URL: " EmptyString line))).
    { intros t [= <-]. destruct (startsWith_rest _ _ Hurl) as [rest ->].
      now rewrite (replace_prefix "URL: " rest). }
    destruct (Js.truthy (src_title cs) && Js.truthy (src_source cs)).
    + apply IH; [exact Hsub' | | intros t; discriminate | intros t; discriminate].
      apply Forall_app. split; [exact Hacc|]. constructor; [|constructor].
      now repeat split.
    + apply IH; [exact Hsub' | exact Hacc | intros t; discriminate | intros t; discriminate].
  - unfold extractSources_step.
    destruct (Js.startsWith line "Title: ") eqn:Htitle.
    { apply IH; [exact Hsub' | exact Hacc | | exact Hs].
      intros t [= <-]. destruct (startsWith_rest _ _ Htitle) as [rest ->].
      now rewrite (replace_prefix "Title: " rest). }
    destruct (Js.startsWith line "Source: ") eqn:Hsource.
    { apply IH; [exact Hsub' | exact Hacc | exact Ht | ].
      intros t [= <-]. destruct (startsWith_rest _ _ Hsource) as [rest ->].
      now rewrite (replace_prefix "Source: " rest). }
    rewrite Hurl. now apply IH.
Qed.

(** X4. [extractSources] invents nothing: the title, the source and the URL
    of every entry are each what follows the name of the field on some line
    of the text. *)
Theorem extractSources_reads_lines (context : string) :
  Forall (readOff (Js.split Js.LF context)) (extractSources context).
Proof.
  unfold extractSources, scan.
  apply fold_readOff; [trivial | constructor | intros t; discriminate
                      | intros t; discriminate].
Qed.

(** ** The prompt *)

Lemma slice_3_recent {A : Type} (older recent : list A) :
  length recent = 3 -> Js.slice (-3) (older ++ recent) = recent.
Proof.
  intros Hlen. rewrite (slice_last 2), length_app, Hlen.
  replace (length older + 3 - 3) with (length older) by lia.
  apply drop_app_length.
Qed.

(** X5. The prompt sent to the hosted model depends on the last three turns
    of the conversation only: older turns change nothing. *)
Theorem buildPrompt_last_three (query context : string) (older recent : list Turn) :
  length recent = 3 ->
  buildPrompt query context (older ++ recent) = buildPrompt query context recent.
Proof.
  intros Hlen.
  assert (Hctx : conversationContext (older ++ recent) = conversationContext recent).
  { unfold conversationContext. rewrite (slice_3_recent older recent Hlen).
    pose proof (slice_3_recent [] recent Hlen) as Hown. simpl app in Hown.
    rewrite Hown. destruct recent as [|t recent]; [discriminate|].
    now destruct older. }
  unfold buildPrompt. now rewrite Hctx.
Qed.

Lemma buildPrompt_last_three_witness :
  buildPrompt "q" "c" ([mkTurn "user" "old"]
                       ++ [mkTurn "user" "a"; mkTurn "assistant" "b"; mkTurn "user" "c"])
  = buildPrompt "q" "c" [mkTurn "user" "a"; mkTurn "assistant" "b"; mkTurn "user" "c"].
Proof. apply buildPrompt_last_three. reflexivity. Defined.

(** ** The session store: clearing, reading back, what is kept in it *)

Lemma clearSession_formula (sessionId : string) (w : World) :
  clearSession sessionId w
  = if isConnected w && clientReady w then
      match sessions w !! sessionId with
      | Some _ => (Ok true, setSessions (delete sessionId (sessions w)) w)
      | None => (Ok false, w)
      end
    else (Ok false, w).
Proof.
  unfold clearSession, tryCatch, bind, gets, ret, client_del_session.
  destruct (isConnected w); simpl; [|reflexivity].
  destruct (clientReady w); simpl; [|reflexivity].
  now destruct (sessions w !! sessionId).
Qed.

(** X6. [clearSession] never throws. It answers true exactly when the link is
    up and the session had an entry; the entry is then gone, the other sessions
    are as before, and clearing again answers false. When it answers false
    nothing has changed. *)
Theorem clearSession_outcome (sessionId : string) (w : World) :
  exists cleared,
    fst (clearSession sessionId w) = Ok cleared
    /\ (cleared = true <->
          isConnected w = true /\ clientReady w = true
          /\ is_Some (sessions w !! sessionId))
    /\ (cleared = true ->
          sessions (snd (clearSession sessionId w)) = delete sessionId (sessions w)
          /\ fst (clearSession sessionId (snd (clearSession sessionId w))) = Ok false)
    /\ (cleared = false -> snd (clearSession sessionId w) = w).
Proof.
  rewrite clearSession_formula.
  destruct (isConnected w) eqn:Hc; simpl.
  - destruct (clientReady w) eqn:Hr; simpl.
    + destruct (sessions w !! sessionId) as [entry|] eqn:Hlook.
      * exists true. split; [reflexivity|]. split; [|split].
        -- split; [intros _; repeat split; eauto | reflexivity].
        -- intros _. split; [reflexivity|]. simpl.
           rewrite clearSession_formula. simpl. rewrite Hc, Hr. simpl.
           now rewrite lookup_delete_eq.
        -- discriminate.
      * exists false. split; [reflexivity|]. split; [|split].
        -- split; [discriminate | intros (_ & _ & [x Hx]); discriminate].
        -- discriminate.
        -- reflexivity.
    + exists false. split; [reflexivity|]. split; [|split].
      * split; [discriminate | intros (_ & ? & _); discriminate].
      * discriminate.
      * reflexivity.
  - exists false. split; [reflexivity|]. split; [|split].
    + split; [discriminate | intros (? & _); discriminate].
    + discriminate.
    + reflexivity.
Qed.

Lemma slice_50_snoc {A : Type} (l : list A) (x : A) :
  Js.slice (-50) (l ++ [x]) = drop (length l - 49) l ++ [x].
Proof.
  rewrite slice_50, length_app. simpl length.
  replace (length l + 1 - 50) with (length l - 49) by lia.
  apply drop_app_le. lia.
Qed.

(** X7. Without a session identifier [addMessage] throws and changes nothing
    (no identifier is drawn). With one, and the link up, the call hands back
    the new log, [getHistory] reads the same log back, and its last message is
    the one added: role, content and metadata as given, a fresh identifier,
    and the time of the call as its time stamp. *)
Theorem addMessage_then_getHistory `{Collaborators} (sessionId role content : string)
    (metadata : MessageMeta) (w : World) :
  (missing sessionId = true ->
     addMessage sessionId role content metadata w = (Throw sessionIdRequired, w))
  /\ (missing sessionId = false ->
      isConnected w = true -> clientReady w = true ->
      let w' := snd (addMessage sessionId role content metadata w) in
      exists log,
        fst (addMessage sessionId role content metadata w) = Ok log
        /\ fst (getHistory sessionId w') = Ok log
        /\ last log = Some (mkMessage role content metadata (uuidv4 (uuids w))
                                      (Some (now w)))
        /\ uuids w' = S (uuids w)).
Proof.
  rewrite addMessage_cases. split.
  - now intros ->.
  - intros Hid Hc Hr. rewrite Hid, addToSessionHistory_cases. simpl.
    rewrite Hc, Hr. simpl. eexists. split; [reflexivity|]. split; [|split].
    + rewrite getHistory_cases, Hid. simpl. rewrite Hc, Hr. simpl.
      unfold storedLog at 1. simpl. now rewrite lookup_insert_eq.
    + rewrite slice_50_snoc. apply last_snoc.
    + reflexivity.
Qed.

Lemma addMessage_then_getHistory_witness :
  exists log,
    fst (addMessage (H := demoCollaborators) "s" "user" "hello" emptyMeta linkUp) = Ok log
    /\ fst (getHistory "s" (snd (addMessage (H := demoCollaborators) "s" "user" "hello"
                                            emptyMeta linkUp))) = Ok log
    /\ last log = Some (mkMessage "user" "hello" emptyMeta "id"
                                  (Some "1970-01-01T00:00:00.000Z"))
    /\ uuids (snd (addMessage (H := demoCollaborators) "s" "user" "hello"
                              emptyMeta linkUp)) = 1.
Proof.
  apply (proj2 (addMessage_then_getHistory (H := demoCollaborators)
                  "s" "user" "hello" emptyMeta linkUp)); reflexivity.
Defined.

Section Store.
Context `{Collaborators}.

(** What one event does to the map of sessions. *)
Lemma step_sessions (ev : Event) (w : World) :
  sessions (stepWorld w ev) = sessions w
  \/ (exists s m, sessions (stepWorld w ev)
                  = <[s := (sessionTtl,
                            Js.slice (-50) (storedLog s w ++ [withTimestamp m (now w)]))]>
                      (sessions w))
  \/ (exists s, sessions (stepWorld w ev) = delete s (sessions w)).
Proof.
  destruct ev as [s message|s r c m|s|s|c r|t]; cbn [stepWorld].
  - rewrite addToSessionHistory_cases.
    destruct (isConnected w); simpl; [|now left].
    destruct (clientReady w); simpl; [|now left].
    right. left. eauto.
  - rewrite addMessage_cases. destruct (missing s); [now left|].
    rewrite addToSessionHistory_cases. simpl.
    destruct (isConnected w); simpl; [|now left].
    destruct (clientReady w); simpl; [|now left].
    right. left. exists s, (mkMessage r c m (uuidv4 (uuids w)) None). reflexivity.
  - destruct (clearSession_cases s w) as [-> | ->]; [now left|].
    right. right. eauto.
  - right. right. eauto.
  - now left.
  - now left.
Qed.

Lemma storedLog_inOrder (sessionId : string) (w : World) :
  storeInOrder w ->
  length (storedLog sessionId w) <= 50 /\ Forall stamped (storedLog sessionId w).
Proof.
  intros Hw. unfold storedLog.
  destruct (sessions w !! sessionId) as [[ttl log]|] eqn:Hlook.
  - destruct (Hw _ _ _ Hlook) as (_ & _ & Hlen & Hst). now split.
  - split; [simpl; lia | constructor].
Qed.

Lemma step_storeInOrder (ev : Event) (w : World) :
  storeInOrder w -> storeInOrder (stepWorld w ev).
Proof.
  intros Hw sid ttl log.
  destruct (step_sessions ev w) as [-> | [(s & m & ->) | (s & ->)]].
  - apply Hw.
  - rewrite lookup_insert. destruct (decide (s = sid)) as [->|Hne]; [|apply Hw].
    intros [= <- <-]. destruct (storedLog_inOrder sid w Hw) as [Hlen Hst].
    split; [reflexivity|]. split; [|split].
    + rewrite slice_50_snoc. intros Hnil. now apply app_nil in Hnil as [_ ?].
    + rewrite length_slice_50. lia.
    + rewrite slice_50. apply Forall_drop, Forall_app. split; [exact Hst|].
      constructor; [|constructor]. unfold stamped. simpl. eauto.
  - rewrite lookup_delete. destruct (decide (s = sid)); [discriminate | apply Hw].
Qed.

Lemma run_storeInOrder (events : list Event) (w : World) :
  storeInOrder w -> storeInOrder (runEvents events w).
Proof.
  revert w. induction events as [|ev events IH]; intros w Hw; [exact Hw|].
  apply (IH (stepWorld w ev)). now apply step_storeInOrder.
Qed.

Lemma startup_storeInOrder : storeInOrder startup.
Proof. intros sid ttl log. simpl. now rewrite lookup_empty. Qed.

End Store.

(** X8. Over every history of a process, each entry of the session store was
    written with the configured expiry and holds between 1 and 50 messages,
    every one with a time stamp: no empty log is ever stored. *)
Theorem session_store_in_order `{Collaborators} (events : list Event)
    (sessionId : string) (ttl : Z) (log : list Message) :
  sessions (runEvents events startup) !! sessionId = Some (ttl, log) ->
  ttl = sessionTtl
  /\ 1 <= length log <= 50
  /\ Forall (fun m => is_Some (timestamp m)) log.
Proof.
  intros Hlook.
  destruct (run_storeInOrder events startup startup_storeInOrder _ _ _ Hlook)
    as (Httl & Hne & Hlen & Hst).
  split; [exact Httl|]. split; [|exact Hst].
  destruct log; [congruence | simpl in *; lia].
Qed.

Lemma session_store_in_order_witness :
  exists ttl log,
    sessions (runEvents (H := demoCollaborators) (sampleEvents 2) startup) !! "s"
    = Some (ttl, log)
    /\ ttl = sessionTtl (H := demoCollaborators)
    /\ 1 <= length log <= 50
    /\ Forall (fun m => is_Some (timestamp m)) log.
Proof.
  destruct (sessions (runEvents (H := demoCollaborators) (sampleEvents 2) startup) !! "s")
    as [[ttl log]|] eqn:E; [|vm_compute in E; discriminate].
  exists ttl, log. split; [reflexivity|].
  exact (session_store_in_order (H := demoCollaborators) (sampleEvents 2) "s" ttl log E).
Defined.

(** ** Counting sessions, statistics of a session *)

Lemma getSessionCount_formula (w : World) :
  getSessionCount w
  = (Ok (if isConnected w && clientReady w then size (sessions w) else 0), w).
Proof.
  unfold getSessionCount, tryCatch, bind, gets, ret, client_keys_sessions.
  destruct (isConnected w); simpl; [|reflexivity].
  destruct (clientReady w); simpl; [|reflexivity].
  now rewrite length_map, length_map_to_list.
Qed.

(** X9. [getSessionCount] never throws and changes nothing; it is the number
    of session entries when the link is up and 0 otherwise. With the link up,
    a message appended to a session without entry raises it by one and a
    message appended to a session with an entry leaves it as it is; clearing
    a session with an entry lowers it by one. *)
Theorem getSessionCount_tracks `{Collaborators} (sessionId : string)
    (message : Message) (w : World) :
  getSessionCount w
  = (Ok (if isConnected w && clientReady w then size (sessions w) else 0), w)
  /\ (isConnected w = true -> clientReady w = true ->
      fst (getSessionCount (snd (addToSessionHistory sessionId message w)))
      = Ok (match sessions w !! sessionId with
            | Some _ => size (sessions w)
            | None => S (size (sessions w))
            end)
      /\ fst (getSessionCount (snd (clearSession sessionId w)))
         = Ok (match sessions w !! sessionId with
               | Some _ => pred (size (sessions w))
               | None => size (sessions w)
               end)).
Proof.
  split; [apply getSessionCount_formula|]. intros Hc Hr. split.
  - rewrite getSessionCount_formula, addToSessionHistory_cases, Hc, Hr. simpl.
    rewrite Hc, Hr. simpl. rewrite map_size_insert.
    now destruct (sessions w !! sessionId).
  - rewrite getSessionCount_formula, clearSession_formula, Hc, Hr. simpl.
    destruct (sessions w !! sessionId) as [entry|] eqn:Hlook; simpl; rewrite Hc, Hr; simpl.
    + rewrite map_size_delete, Hlook. reflexivity.
    + reflexivity.
Qed.

Lemma getSessionCount_tracks_witness :
  fst (getSessionCount (snd (addToSessionHistory (H := demoCollaborators) "s"
                                                 (sampleMessage 0) linkUp)))
  = Ok (match sessions linkUp !! "s" with
        | Some _ => size (sessions linkUp)
        | None => S (size (sessions linkUp))
        end).
Proof.
  apply (proj2 (getSessionCount_tracks (H := demoCollaborators) "s" (sampleMessage 0)
                  linkUp)); reflexivity.
Defined.

(** X10. Over every history of a process, the statistics of a session are
    either those of a session without history (all empty), or give a total
    between 1 and 50, a count of user messages that is at most the total, and
    both the start time and the time of the last activity. *)
Theorem getSessionStats_in_range `{Collaborators} (events : list Event)
    (sessionId : string) (stats : SessionStats) :
  fst (SessionService.getSessionStats sessionId (runEvents events startup)) = Ok stats ->
  stats = mkSessionStats 0 None None None
  \/ exists n, totalMessages stats = Some n
               /\ 1 <= n <= 50
               /\ messageCount stats <= n
               /\ is_Some (startTime stats)
               /\ is_Some (lastActivity stats).
Proof.
  pose proof (run_storeInOrder events startup startup_storeInOrder) as Hw.
  remember (runEvents events startup) as w eqn:Ew. clear Ew.
  unfold SessionService.getSessionStats, bind. rewrite getHistory_cases.
  destruct (missing sessionId); [discriminate|].
  destruct (storedLog_inOrder sessionId w Hw) as [Hlen Hst].
  destruct (isConnected w && clientReady w); [|intros [= <-]; now left].
  destruct (storedLog sessionId w) as [|m log] eqn:Hlog; [intros [= <-]; now left|].
  intros [= <-]. right. exists (length (m :: log)). simpl totalMessages.
  split; [reflexivity|]. split; [simpl in *; lia|].
  split; [exact (filter_length_le (fun msg => String.eqb (role msg) "user") (m :: log))|].
  split.
  - simpl. inversion Hst; subst. assumption.
  - simpl lastActivity. destruct (last (m :: log)) as [x|] eqn:Hlast.
    + apply last_Some_elem_of in Hlast. simpl.
      rewrite Forall_forall in Hst. now apply Hst.
    + now apply last_None in Hlast.
Qed.

Lemma getSessionStats_in_range_witness :
  mkSessionStats 2 (Some 2) (Some "1970-01-01T00:00:00.000Z")
                 (Some "1970-01-01T00:00:00.000Z")
  = mkSessionStats 0 None None None
  \/ exists n, Some 2 = Some n /\ 1 <= n <= 50 /\ 2 <= n
               /\ is_Some (Some "1970-01-01T00:00:00.000Z")
               /\ is_Some (Some "1970-01-01T00:00:00.000Z").
Proof.
  apply (getSessionStats_in_range (H := demoCollaborators) (sampleEvents 2) "s").
  reflexivity.
Defined.

(** X11. For a session identifier that is not missing: with the link up,
    [sessionExists] answers true after a message was added and false after the
    session was cleared; with the link down it answers false whatever is
    stored. *)
Theorem sessionExists_tracks `{Collaborators} (sessionId role content : string)
    (metadata : MessageMeta) (w : World) :
  missing sessionId = false ->
  (isConnected w = true -> clientReady w = true ->
   fst (SessionService.sessionExists sessionId
          (snd (addMessage sessionId role content metadata w))) = Ok true
   /\ fst (SessionService.sessionExists sessionId
             (snd (SessionService.clearSession sessionId w))) = Ok false)
  /\ (isConnected w = false ->
      fst (SessionService.sessionExists sessionId w) = Ok false).
Proof.
  intros Hid. unfold SessionService.sessionExists, SessionService.clearSession, bind.
  rewrite Hid. split.
  - intros Hc Hr. split.
    + rewrite getHistory_cases, Hid, addMessage_cases, Hid, addToSessionHistory_cases.
      simpl. rewrite Hc, Hr. simpl. rewrite Hc, Hr. simpl.
      unfold storedLog at 1. simpl. rewrite lookup_insert_eq.
      destruct (slice_50_snoc_nonempty
                  (storedLog sessionId (setUuids (S (uuids w)) w))
                  (withTimestamp (mkMessage role content metadata (uuidv4 (uuids w)) None)
                                 (now w))) as (y & ys & ->).
      reflexivity.
    + rewrite getHistory_cases, Hid, clearSession_formula, Hc, Hr. simpl.
      destruct (sessions w !! sessionId) as [entry|] eqn:Hlook; simpl; rewrite Hc, Hr; simpl.
      * unfold storedLog. simpl. now rewrite lookup_delete_eq.
      * unfold storedLog. now rewrite Hlook.
  - intros Hc. rewrite getHistory_cases, Hid, Hc. reflexivity.
Qed.

Lemma sessionExists_tracks_witness :
  fst (SessionService.sessionExists "s"
         (snd (addMessage (H := demoCollaborators) "s" "user" "hello" emptyMeta linkUp)))
  = Ok true
  /\ fst (SessionService.sessionExists "s" (snd (SessionService.clearSession "s" linkUp)))
     = Ok false.
Proof.
  apply (proj1 (sessionExists_tracks (H := demoCollaborators) "s" "user" "hello"
                  emptyMeta linkUp eq_refl)); reflexivity.
Defined.

(** ** The query cache and retrieval *)

Lemma cacheQuery_formula (queryHash : string) (results : SearchResults) (ttl : Z)
    (w : World) :
  cacheQuery queryHash results ttl w
  = (Ok tt, if isConnected w && clientReady w
            then setQueries (<[queryHash := (ttl, results)]> (queries w)) w
            else w).
Proof.
  unfold cacheQuery, tryCatch, bind, gets, ret, client_setEx_query.
  destruct (isConnected w); simpl; [|reflexivity].
  now destruct (clientReady w).
Qed.

Lemma getCachedQuery_formula (queryHash : string) (w : World) :
  getCachedQuery queryHash w
  = (Ok (if isConnected w && clientReady w then snd <$> queries w !! queryHash else None),
     w).
Proof.
  unfold getCachedQuery, tryCatch, bind, gets, ret, client_get_query.
  destruct (isConnected w); simpl; [|reflexivity].
  now destruct (clientReady w).
Qed.

(** X12. [cacheQuery] never throws. With the link up, what it stores under a
    hash is what [getCachedQuery] then finds under that hash, and the lookup
    of any other hash gives what it gave before; with the link down it does
    nothing, and every lookup is a miss. *)
Theorem cacheQuery_then_getCachedQuery (queryHash : string) (results : SearchResults)
    (ttl : Z) (w : World) :
  fst (cacheQuery queryHash results ttl w) = Ok tt
  /\ (isConnected w = true -> clientReady w = true ->
      let w' := snd (cacheQuery queryHash results ttl w) in
      fst (getCachedQuery queryHash w') = Ok (Some results)
      /\ forall other, other <> queryHash ->
           fst (getCachedQuery other w') = fst (getCachedQuery other w))
  /\ (isConnected w && clientReady w = false ->
      snd (cacheQuery queryHash results ttl w) = w
      /\ forall other, fst (getCachedQuery other w) = Ok None).
Proof.
  rewrite cacheQuery_formula. split; [reflexivity|]. split.
  - intros Hc Hr. rewrite Hc, Hr. simpl. split.
    + rewrite getCachedQuery_formula. simpl. rewrite Hc, Hr. simpl.
      now rewrite lookup_insert_eq.
    + intros other Hne. rewrite !getCachedQuery_formula. simpl. rewrite Hc, Hr. simpl.
      now rewrite lookup_insert_ne.
  - intros Hdown. rewrite Hdown. split; [reflexivity|].
    intros other. rewrite getCachedQuery_formula. now rewrite Hdown.
Qed.

Lemma cacheQuery_then_getCachedQuery_witness :
  fst (getCachedQuery "h" (snd (cacheQuery "h" demoResults 3600 linkUp)))
  = Ok (Some demoResults).
Proof.
  apply (proj1 (proj2 (cacheQuery_then_getCachedQuery "h" demoResults 3600 linkUp))
               eq_refl eq_refl).
Defined.

(** X13. Once the embedding model is loaded, [loadEmbedder] makes no call and
    changes nothing. A load that succeeds sets the flag, so the next call is
    free; a load that fails leaves the flag as it was, so the next call tries
    again. *)
Theorem loadEmbedder_once `{Collaborators} (w : World) :
  (embedderLoaded w = true -> loadEmbedder w = (Ok tt, w))
  /\ (fst (loadEmbedder w) = Ok tt ->
      embedderLoaded (snd (loadEmbedder w)) = true
      /\ loadEmbedder (snd (loadEmbedder w)) = (Ok tt, snd (loadEmbedder w)))
  /\ (forall e, fst (loadEmbedder w) = Throw e ->
      embedderLoaded (snd (loadEmbedder w)) = false
      /\ calls (snd (loadEmbedder w)) = calls w ++ [CallPipeline]).
Proof.
  unfold loadEmbedder, bind, gets, modify, ret, call.
  destruct (embedderLoaded w) eqn:Hl; simpl.
  - rewrite Hl. split; [reflexivity|]. split; [now split|]. intros e He. discriminate.
  - split; [discriminate|]. destruct pipeline as [[]|e0]; simpl.
    + split; [intros _; now split | intros e He; discriminate].
    + split; [discriminate | intros e _; now split].
Qed.

Lemma loadEmbedder_once_witness :
  loadEmbedder (H := demoCollaborators)
    (snd (loadEmbedder (H := demoCollaborators) startup))
  = (Ok tt, snd (loadEmbedder (H := demoCollaborators) startup)).
Proof.
  apply (proj1 (proj2 (loadEmbedder_once (H := demoCollaborators) startup))).
  reflexivity.
Defined.

Lemma searchChroma_on_hit `{Collaborators} (query : string) (w : World)
    (results : SearchResults) :
  fst (getCachedQuery (md5hex query) w) = Ok (Some results) ->
  searchChroma query w = (Ok results, w).
Proof.
  rewrite getCachedQuery_formula. simpl. intros [= Hhit].
  unfold searchChroma, tryCatch, bind. rewrite getCachedQuery_formula, Hhit. reflexivity.
Qed.

(** X14. On a cache miss (nothing under the hash, or the cache cannot be
    read), when the embedding model, the collection and the query all
    resolve, [searchChroma] returns what the vector store answered for the
    embedding of the query and the configured number of results. It loads the
    model only if it is not loaded yet, makes exactly one embedding call and one
    query, writes the result under the hash of the query for one hour when the
    link is up, and never touches the sessions. A cache that is down cannot
    make the search fail. *)
Theorem searchChroma_miss `{Collaborators} (query : string) (w : World)
    (queryEmbedding : list Q) (results : SearchResults) :
  fst (getCachedQuery (md5hex query) w) = Ok None ->
  (embedderLoaded w = true \/ pipeline = Ok tt) ->
  embedder query = Ok queryEmbedding ->
  chromaGetCollection = Ok tt ->
  collectionQuery queryEmbedding TOP_K = Ok results ->
  let w' := snd (searchChroma query w) in
  fst (searchChroma query w) = Ok results
  /\ calls w' = calls w ++ (if embedderLoaded w then [] else [CallPipeline])
                        ++ [CallEmbed query; CallGetCollection;
                            CallQuery queryEmbedding TOP_K]
  /\ (isConnected w = true -> clientReady w = true ->
      queries w' !! md5hex query = Some (3600%Z, results))
  /\ sessions w' = sessions w.
Proof.
  rewrite getCachedQuery_formula. simpl. intros [= Hmiss] Hload Hemb Hcol Hquery.
  unfold searchChroma, tryCatch, bind.
  rewrite getCachedQuery_formula, Hmiss.
  unfold loadEmbedder, getCollection, bind, gets, modify, ret, call.
  assert (Hfin : forall loaded client cs,
            let w1 := mkWorld (isConnected w) (clientReady w) (sessions w) (queries w)
                              loaded client (now w) (uuids w) cs in
            let w2 := if isConnected w && clientReady w
                      then setQueries (<[md5hex query := (3600%Z, results)]> (queries w)) w1
                      else w1 in
            calls w2 = cs
            /\ (isConnected w = true -> clientReady w = true ->
                queries w2 !! md5hex query = Some (3600%Z, results))
            /\ sessions w2 = sessions w).
  { intros loaded client cs w1 w2. subst w2.
    destruct (isConnected w && clientReady w) eqn:Hlink; simpl.
    - split; [reflexivity|]. split; [|reflexivity]. intros _ _. apply lookup_insert_eq.
    - split; [reflexivity|]. split; [|reflexivity].
      intros Hc Hr. rewrite Hc, Hr in Hlink. discriminate. }
  destruct (embedderLoaded w) eqn:Hl; simpl.
  - rewrite Hemb. simpl.
    destruct (chromaClient w); simpl; rewrite Hcol; simpl; rewrite Hquery;
      rewrite cacheQuery_formula; simpl;
      (split; [reflexivity|]);
      match goal with
      | |- context [if _ then setQueries _ (mkWorld _ _ _ _ ?l ?c _ _ ?cs) else _] =>
          destruct (Hfin l c cs) as (Hcalls & Hq & Hs)
      end;
      (split; [rewrite Hcalls; now rewrite <- !app_assoc|]);
      (split; [exact Hq | exact Hs]).
  - destruct Hload as [Hload|Hload]; [discriminate|]. rewrite Hload. simpl.
    rewrite Hemb. simpl.
    destruct (chromaClient w); simpl; rewrite Hcol; simpl; rewrite Hquery;
      rewrite cacheQuery_formula; simpl;
      (split; [reflexivity|]);
      match goal with
      | |- context [if _ then setQueries _ (mkWorld _ _ _ _ ?l ?c _ _ ?cs) else _] =>
          destruct (Hfin l c cs) as (Hcalls & Hq & Hs)
      end;
      (split; [rewrite Hcalls; now rewrite <- !app_assoc|]);
      (split; [exact Hq | exact Hs]).
Qed.

Lemma searchChroma_miss_witness :
  fst (searchChroma (H := demoCollaborators) "q" linkUp) = Ok demoResults
  /\ calls (snd (searchChroma (H := demoCollaborators) "q" linkUp))
     = [CallPipeline; CallEmbed "q"; CallGetCollection; CallQuery [1 # 2] 5].
Proof.
  pose proof (searchChroma_miss (H := demoCollaborators) "q" linkUp [1 # 2] demoResults
                eq_refl (or_intror eq_refl) eq_refl eq_refl eq_refl) as (Hres & Hcalls & _).
  split; [exact Hres | exact Hcalls].
Defined.

(** X15. With the link up, a search that succeeds can be repeated at once:
    the second search of the same query returns the same result and changes
    nothing, so it makes no call to the embedding model or the vector store. *)
Theorem searchChroma_twice `{Collaborators} (query : string) (w w1 : World)
    (results : SearchResults) :
  isConnected w = true -> clientReady w = true ->
  searchChroma query w = (Ok results, w1) ->
  searchChroma query w1 = (Ok results, w1).
Proof.
  intros Hc Hr.
  destruct (queries w !! md5hex query) as [[ttl cached]|] eqn:Hlook.
  - assert (Hhit : fst (getCachedQuery (md5hex query) w) = Ok (Some cached))
      by (rewrite getCachedQuery_formula; simpl; now rewrite Hc, Hr, Hlook).
    rewrite (searchChroma_on_hit _ _ _ Hhit). intros [= <- <-].
    now apply searchChroma_on_hit.
  - unfold searchChroma at 1, tryCatch, bind.
    rewrite getCachedQuery_formula, Hc, Hr, Hlook. simpl.
    unfold loadEmbedder, getCollection, bind, gets, modify, ret, call, throw.
    assert (Hdone : forall loaded client cs,
              let w2 := setQueries (<[md5hex query := (3600%Z, results)]> (queries w))
                          (mkWorld true true (sessions w)
                                   (queries w) loaded client (now w) (uuids w) cs) in
              searchChroma query w2 = (Ok results, w2)).
    { intros loaded client cs w2. apply searchChroma_on_hit.
      rewrite getCachedQuery_formula. simpl.
      now rewrite lookup_insert_eq. }
    destruct (embedderLoaded w); simpl;
      [|destruct pipeline as [[]|e0]; simpl; [|discriminate]];
      (destruct (embedder query) as [emb|e1]; simpl; [|discriminate]);
      (destruct (chromaClient w); simpl);
      (destruct chromaGetCollection as [[]|e2]; simpl; [|discriminate]);
      (destruct (collectionQuery emb TOP_K) as [res|e3]; simpl; [|discriminate]);
      rewrite cacheQuery_formula; simpl; rewrite Hc, Hr; simpl;
      intros [= <- <-]; apply Hdone.
Qed.

Lemma searchChroma_twice_witness :
  searchChroma (H := demoCollaborators) "q"
    (snd (searchChroma (H := demoCollaborators) "q" linkUp))
  = (Ok demoResults, snd (searchChroma (H := demoCollaborators) "q" linkUp)).
Proof.
  apply (searchChroma_twice (H := demoCollaborators) "q" linkUp); reflexivity.
Defined.

Lemma tryCatch_fixed {A : Type} (m : M A) (e0 e : JsError) (w : World) :
  fst (tryCatch m (fun _ => throw e0) w) = Throw e -> e = e0.
Proof.
  unfold tryCatch, throw. destruct (m w) as [[a|e1] w']; simpl; [discriminate|].
  now intros [= <-].
Qed.

Lemma searchChroma_error `{Collaborators} (query : string) (w : World) (e : JsError) :
  fst (searchChroma query w) = Throw e -> e = Error "Failed to search knowledge base".
Proof. apply tryCatch_fixed. Qed.

Lemma generateResponse_error `{Collaborators} (query context : string)
    (conversationHistory : list Turn) (w : World) (e : JsError) :
  fst (generateResponse query context conversationHistory w) = Throw e ->
  e = Error "Failed to generate response".
Proof. apply tryCatch_fixed. Qed.

(** X16. Whatever fails inside, [searchChroma] throws only its own error,
    [generateResponse] only its own, and [processQuery] throws one of these
    two or the type error of [buildContext]: the cause of a failure of a
    collaborator never reaches the caller. *)
Theorem thrown_errors `{Collaborators} (query context : string)
    (conversationHistory : list Turn) (w : World) (e : JsError) :
  (fst (searchChroma query w) = Throw e ->
     e = Error "Failed to search knowledge base")
  /\ (fst (generateResponse query context conversationHistory w) = Throw e ->
      e = Error "Failed to generate response")
  /\ (fst (processQuery query conversationHistory w) = Throw e ->
      e = Error "Failed to search knowledge base"
      \/ e = Error "Failed to generate response"
      \/ exists msg, e = TypeError msg).
Proof.
  split; [apply searchChroma_error|]. split; [apply generateResponse_error|].
  unfold processQuery, tryCatch at 1, bind at 1, throw.
  pose proof (searchChroma_error query w) as Hse.
  destruct (searchChroma query w) as [[r|e1] w1].
  - destruct (firstRow (documents r)); [discriminate|].
    unfold bind, lift.
    destruct (buildContext r MAX_CONTEXT_LENGTH) as [ctx|e2] eqn:Hctx.
    + destruct ctx as [|c ctx]; [discriminate|].
      pose proof (generateResponse_error query (String c ctx) conversationHistory w1)
        as Hge.
      destruct (generateResponse query (String c ctx) conversationHistory w1)
        as [[a|e3] w2]; simpl; [discriminate|].
      intros [= <-]. right. left. now apply Hge.
    + simpl. intros [= <-]. right. right.
      eapply buildContext_error, Hctx.
  - simpl. intros [= <-]. left. now apply Hse.
Qed.

Lemma thrown_errors_witness :
  Error "Failed to search knowledge base" = Error "Failed to search knowledge base".
Proof.
  apply (proj1 (thrown_errors (H := failingCollaborators) "q" "c" [] linkUp
                  (Error "Failed to search knowledge base"))).
  reflexivity.
Defined.

(** X17. [healthCheck] never throws. It reports the service healthy exactly
    when the embedding model is loaded or loads and the collection can be
    opened; otherwise it reports it unhealthy, with the message of the error. *)
Theorem healthCheck_reports `{Collaborators} (w : World) :
  exists health,
    fst (healthCheck w) = Ok health
    /\ health_timestamp health = now w
    /\ ((embedderLoaded w = true \/ pipeline = Ok tt) /\ chromaGetCollection = Ok tt ->
        health_status health = "healthy" /\ health_error health = None)
    /\ (~ ((embedderLoaded w = true \/ pipeline = Ok tt) /\ chromaGetCollection = Ok tt) ->
        health_status health = "unhealthy" /\ is_Some (health_error health)).
Proof.
  unfold healthCheck, tryCatch, bind, loadEmbedder, getCollection, bind, gets, modify,
    ret, call.
  destruct (embedderLoaded w) eqn:Hl; simpl.
  - destruct (chromaClient w); simpl;
      (destruct chromaGetCollection as [[]|e]; simpl;
       [eexists; split; [reflexivity|]; split; [reflexivity|]; split;
        [now split | intros Hn; exfalso; apply Hn; split; [now left | reflexivity]]
       |eexists; split; [reflexivity|]; split; [reflexivity|]; split;
        [intros [_ ?]; discriminate | intros _; split; [reflexivity | eauto]]]).
  - destruct pipeline as [[]|e0]; simpl.
    + destruct (chromaClient w); simpl;
        (destruct chromaGetCollection as [[]|e]; simpl;
         [eexists; split; [reflexivity|]; split; [reflexivity|]; split;
          [now split | intros Hn; exfalso; apply Hn; split; [now right | reflexivity]]
         |eexists; split; [reflexivity|]; split; [reflexivity|]; split;
          [intros [_ ?]; discriminate | intros _; split; [reflexivity | eauto]]]).
    + eexists. split; [reflexivity|]. split; [reflexivity|]. split.
      * intros [[?|?] _]; discriminate.
      * intros _. split; [reflexivity | eauto].
Qed.

Lemma healthCheck_reports_witness :
  exists health,
    fst (healthCheck (H := demoCollaborators) startup) = Ok health
    /\ health_status health = "healthy" /\ health_error health = None.
Proof.
  destruct (healthCheck_reports (H := demoCollaborators) startup)
    as (health & Hrun & _ & Hgood & _).
  exists health. split; [exact Hrun|].
  apply Hgood. split; [right|]; reflexivity.
Defined.

(** ** What retrieval and generation leave alone *)

Lemma keeps_ret {A B : Type} (f : World -> B) (a : A) : keeps f (ret a).
Proof. intros w. reflexivity. Qed.

Lemma keeps_throw {A B : Type} (f : World -> B) (e : JsError) : keeps f (@throw A e).
Proof. intros w. reflexivity. Qed.

Lemma keeps_gets {A B : Type} (f : World -> B) (g : World -> A) : keeps f (gets g).
Proof. intros w. reflexivity. Qed.

Lemma keeps_lift {A B : Type} (f : World -> B) (r : Result A) : keeps f (lift r).
Proof. intros w. reflexivity. Qed.

Lemma keeps_bind {A B C : Type} (f : World -> C) (m : M A) (k : A -> M B) :
  keeps f m -> (forall a, keeps f (k a)) -> keeps f (bind m k).
Proof.
  intros Hm Hk w. unfold bind. specialize (Hm w).
  destruct (m w) as [[a|e] w']; simpl in *; [|exact Hm].
  now rewrite Hk.
Qed.

Lemma keeps_tryCatch {A C : Type} (f : World -> C) (m : M A) (h : JsError -> M A) :
  keeps f m -> (forall e, keeps f (h e)) -> keeps f (tryCatch m h).
Proof.
  intros Hm Hh w. unfold tryCatch. specialize (Hm w).
  destruct (m w) as [[a|e] w']; simpl in *; [exact Hm|].
  now rewrite Hh.
Qed.

Lemma keeps_if {A C : Type} (f : World -> C) (b : bool) (m1 m2 : M A) :
  keeps f m1 -> keeps f m2 -> keeps f (if b then m1 else m2).
Proof. now destruct b. Qed.

Lemma keeps_call {A C : Type} (f : World -> C) (c : Call) (r : Result A) :
  blind f -> keeps f (call c r).
Proof. intros Hf w. unfold call. simpl. apply Hf. Qed.

Lemma keeps_getCachedQuery {C : Type} (f : World -> C) (queryHash : string) :
  keeps f (getCachedQuery queryHash).
Proof. intros w. now rewrite getCachedQuery_state. Qed.

Lemma keeps_cacheQuery {C : Type} (f : World -> C) (queryHash : string)
    (results : SearchResults) (ttl : Z) :
  blind f -> keeps f (cacheQuery queryHash results ttl).
Proof.
  intros Hf w. rewrite cacheQuery_formula. simpl.
  destruct (isConnected w && clientReady w); [apply Hf | reflexivity].
Qed.

Section Frame.
Context `{Collaborators} {C : Type} (f : World -> C) (Hf : blind f).

Lemma keeps_loadEmbedder : keeps f loadEmbedder.
Proof.
  unfold loadEmbedder. apply keeps_bind; [apply keeps_gets|]. intros loaded.
  apply keeps_if; [|apply keeps_ret].
  apply keeps_bind; [now apply keeps_call|]. intros _.
  intros w. unfold modify, setEmbedderLoaded. simpl. apply Hf.
Qed.

Lemma keeps_getCollection : keeps f getCollection.
Proof.
  unfold getCollection. apply keeps_bind; [apply keeps_gets|]. intros created.
  apply keeps_bind; [|intros; now apply keeps_call].
  apply keeps_if; [|apply keeps_ret].
  intros w. unfold modify, setChromaClient. simpl. apply Hf.
Qed.

Lemma keeps_searchChroma (query : string) : keeps f (searchChroma query).
Proof.
  unfold searchChroma. apply keeps_tryCatch; [|intros; apply keeps_throw].
  apply keeps_bind; [apply keeps_getCachedQuery|]. intros [results|];
    [apply keeps_ret|].
  apply keeps_bind; [apply keeps_loadEmbedder|]. intros _.
  apply keeps_bind; [now apply keeps_call|]. intros queryEmbedding.
  apply keeps_bind; [apply keeps_getCollection|]. intros _.
  apply keeps_bind; [now apply keeps_call|]. intros results.
  apply keeps_bind; [now apply keeps_cacheQuery | intros; apply keeps_ret].
Qed.

Lemma keeps_generateResponse (query context : string) (conversationHistory : list Turn) :
  keeps f (generateResponse query context conversationHistory).
Proof.
  unfold generateResponse. apply keeps_tryCatch; [|intros; apply keeps_throw].
  apply keeps_bind; [now apply keeps_call | intros; apply keeps_ret].
Qed.

Lemma keeps_processQuery (query : string) (conversationHistory : list Turn) :
  keeps f (processQuery query conversationHistory).
Proof.
  unfold processQuery. apply keeps_tryCatch; [|intros; apply keeps_throw].
  apply keeps_bind; [apply keeps_searchChroma|]. intros searchResults.
  destruct (firstRow (documents searchResults)); [apply keeps_ret|].
  apply keeps_bind; [apply keeps_lift|]. intros [|c context]; [apply keeps_ret|].
  apply keeps_bind; [apply keeps_generateResponse | intros; apply keeps_ret].
Qed.

End Frame.

Lemma generateResponse_formula `{Collaborators} (query context : string)
    (conversationHistory : list Turn) (w : World) :
  generateResponse query context conversationHistory w
  = (match generateContent (buildPrompt query context conversationHistory) with
     | Ok reply => Ok (mkAnswer (fst reply) (extractSources context) (snd reply))
     | Throw _ => Throw (Error "Failed to generate response")
     end,
     snd (call (A := unit) (CallGenerate (buildPrompt query context conversationHistory))
               (Ok tt) w)).
Proof.
  unfold generateResponse, tryCatch, bind, call, ret, throw.
  now destruct (generateContent (buildPrompt query context conversationHistory)).
Qed.

(** X18. When retrieval gives documents and the context built from them is
    not empty, [processQuery] makes one call to the hosted model, with the
    prompt built from the query, that context and the conversation. If the
    model replies, the answer is its text, the sources read off the context
    (not off the reply) and its token usage; if it rejects, [processQuery]
    throws the error of the generation step. *)
Theorem processQuery_generates `{Collaborators} (query : string)
    (conversationHistory : list Turn) (w w1 : World) (results : SearchResults)
    (context : string) :
  searchChroma query w = (Ok results, w1) ->
  firstRow (documents results) <> [] ->
  buildContext results MAX_CONTEXT_LENGTH = Ok context ->
  context <> EmptyString ->
  let prompt := buildPrompt query context conversationHistory in
  calls (snd (processQuery query conversationHistory w))
  = calls w1 ++ [CallGenerate prompt]
  /\ (forall text usage,
        generateContent prompt = Ok (text, usage) ->
        fst (processQuery query conversationHistory w)
        = Ok (mkAnswer text (extractSources context) usage))
  /\ (forall e,
        generateContent prompt = Throw e ->
        fst (processQuery query conversationHistory w)
        = Throw (Error "Failed to generate response")).
Proof.
  intros Hsearch Hdocs Hctx Hne prompt.
  unfold processQuery, tryCatch, bind, lift, throw, ret. rewrite Hsearch.
  destruct (firstRow (documents results)); [congruence|].
  rewrite Hctx. destruct context as [|c context]; [congruence|].
  rewrite generateResponse_formula. fold prompt.
  destruct (generateContent prompt) as [[text usage]|e]; simpl.
  - split; [reflexivity|]. split; [now intros ? ? [= <- <-] | discriminate].
  - split; [reflexivity|]. split; [discriminate | reflexivity].
Qed.

Lemma processQuery_generates_witness :
  fst (processQuery (H := demoCollaborators) "q" [] linkUp)
  = Ok (mkAnswer "answer"
          (extractSources
             (Js.trim (docContext (mkMetadata (Some "T1") (Some "S1") (Some "U1"))
                                  (Some "AI news")
                       +:+ docContext (mkMetadata (Some "T3") None None)
                                      (Some "Sports"))))
          None).
Proof.
  refine (proj1 (proj2 (processQuery_generates (H := demoCollaborators) "q" [] linkUp _
                          demoResults _ eq_refl _ eq_refl _)) "answer" None eq_refl);
    discriminate.
Defined.

(** X19. [processQuery] never touches the sessions, the link, the clock or the
    supply of identifiers, and calls the hosted model at most once. *)
Theorem processQuery_frame `{Collaborators} (query : string)
    (conversationHistory : list Turn) (w : World) :
  let w' := snd (processQuery query conversationHistory w) in
  sessions w' = sessions w
  /\ isConnected w' = isConnected w
  /\ clientReady w' = clientReady w
  /\ now w' = now w
  /\ uuids w' = uuids w
  /\ generations w <= generations w' <= S (generations w).
Proof.
  intros w'. subst w'.
  split; [now apply (keeps_processQuery sessions)|].
  split; [now apply (keeps_processQuery isConnected)|].
  split; [now apply (keeps_processQuery clientReady)|].
  split; [now apply (keeps_processQuery now)|].
  split; [now apply (keeps_processQuery uuids)|].
  unfold processQuery, tryCatch, bind, lift, throw, ret.
  pose proof (quiet_searchChroma query w) as Hq.
  destruct (searchChroma query w) as [[r|e] w1]; simpl in Hq; [|simpl; lia].
  destruct (firstRow (documents r)); [simpl; lia|].
  destruct (buildContext r MAX_CONTEXT_LENGTH) as [[|c ctx]|e]; [simpl; lia | | simpl; lia].
  rewrite generateResponse_formula.
  assert (Hg : generations (snd (call (A := unit)
                 (CallGenerate (buildPrompt query (String c ctx) conversationHistory))
                 (Ok tt) w1)) = S (generations w1)).
  { unfold generations, call. simpl. rewrite filter_app, length_app. simpl. lia. }
  destruct (generateContent (buildPrompt query (String c ctx) conversationHistory));
    cbn [snd]; rewrite Hg; lia.
Qed.

(** ** The routes *)

Lemma safe_tryCatch {A : Type} (m : M A) (h : JsError -> M A) :
  (forall e, safe (h e)) -> safe (tryCatch m h).
Proof.
  intros Hh w. unfold tryCatch. destruct (m w) as [[a|e] w']; [simpl; eauto|].
  apply Hh.
Qed.

Lemma bind_Ok_inv {A B : Type} (m : M A) (k : A -> M B) (w w' : World) (b : B) :
  bind m k w = (Ok b, w') ->
  exists a w1, m w = (Ok a, w1) /\ k a w1 = (Ok b, w').
Proof.
  unfold bind. destruct (m w) as [[a|e] w1]; [eauto | discriminate].
Qed.

Lemma validateSession_inr (paramsId bodySessionId : option string) (s : string) :
  validateSession paramsId bodySessionId = inr s -> missing s = false.
Proof.
  unfold validateSession.
  destruct (Js.truthy paramsId) eqn:Hp.
  - destruct paramsId as [p|]; [|discriminate]. rewrite Hp. intros [= <-].
    now destruct p.
  - destruct bodySessionId as [b|]; [|discriminate].
    destruct (Js.truthy (Some b)) eqn:Hb; [|discriminate]. intros [= <-]. now destruct b.
Qed.

Lemma validateSession_inl (paramsId bodySessionId : option string) (refused : Response) :
  validateSession paramsId bodySessionId = inl refused ->
  refused = mkResponse 400 (ErrorBody "Session ID is required" "MISSING_SESSION_ID" None).
Proof.
  unfold validateSession.
  destruct (if Js.truthy paramsId then paramsId else bodySessionId) as [s|];
    [|now intros [= <-]].
  destruct (Js.truthy _); [discriminate | now intros [= <-]].
Qed.

(** X20. [DELETE /session/:id] always answers, and never with a 500: it
    answers 400 when no session identifier is given, 200 when the link is up
    and the session had an entry (which is then gone), and 404 otherwise, also
    for a session that is stored while the cache cannot be reached. *)
Theorem deleteSessionRoute_answers (paramsId bodySessionId : option string) (w : World) :
  exists response,
    fst (deleteSessionRoute paramsId bodySessionId w) = Ok response
    /\ (res_status response = 400 \/ res_status response = 200
        \/ res_status response = 404)%Z
    /\ (res_status response = 400%Z <->
          exists refused, validateSession paramsId bodySessionId = inl refused)
    /\ (res_status response = 200%Z <->
          exists s, validateSession paramsId bodySessionId = inr s
                    /\ isConnected w = true /\ clientReady w = true
                    /\ is_Some (sessions w !! s))
    /\ (res_status response = 200%Z ->
          forall s, validateSession paramsId bodySessionId = inr s ->
            sessions (snd (deleteSessionRoute paramsId bodySessionId w)) !! s = None).
Proof.
  unfold deleteSessionRoute.
  destruct (validateSession paramsId bodySessionId) as [refused|s] eqn:Hv.
  - rewrite (validateSession_inl _ _ _ Hv). eexists. split; [reflexivity|]. simpl.
    split; [now left|]. split; [split; eauto|].
    split; [split; [discriminate | intros (s & ? & _); discriminate] | discriminate].
  - pose proof (validateSession_inr _ _ _ Hv) as Hid.
    unfold tryCatch, bind, SessionService.clearSession. rewrite Hid.
    rewrite clearSession_formula.
    destruct (isConnected w) eqn:Hc; simpl;
      [destruct (clientReady w) eqn:Hr; simpl;
       [destruct (sessions w !! s) as [entry|] eqn:Hlook; simpl|]|].
    + eexists. split; [reflexivity|]. simpl. split; [right; now left|].
      split; [split; [discriminate | intros [? ?]; discriminate]|].
      split; [split; [intros _; exists s; repeat split; eauto | reflexivity]|].
      intros _ s' [= <-]. apply lookup_delete_eq.
    + eexists. split; [reflexivity|]. simpl. split; [right; now right|].
      split; [split; [discriminate | intros [? ?]; discriminate]|].
      split; [split; [discriminate|] | discriminate].
      intros (s' & [= <-] & _ & _ & [x Hx]). congruence.
    + eexists. split; [reflexivity|]. simpl. split; [right; now right|].
      split; [split; [discriminate | intros [? ?]; discriminate]|].
      split; [split; [discriminate|] | discriminate].
      intros (s' & _ & _ & ? & _). discriminate.
    + eexists. split; [reflexivity|]. simpl. split; [right; now right|].
      split; [split; [discriminate | intros [? ?]; discriminate]|].
      split; [split; [discriminate|] | discriminate].
      intros (s' & _ & ? & _). discriminate.
Qed.

(** X21. [GET /session/:id/history] always answers and changes nothing, but
    never with the history: it answers 400 when no session identifier is given,
    and otherwise, since session.service.js defines no [getSessionStats], the
    call of that method fails after the log was read and the answer is the 500
    of the handler, whatever the session holds and whatever the link is. *)
Theorem getSessionHistoryRoute_answers (paramsId bodySessionId : option string)
    (w : World) :
  ((exists refused,
      validateSession paramsId bodySessionId = inl refused
      /\ getSessionHistoryRoute paramsId bodySessionId w
         = (Ok (mkResponse 400 (ErrorBody "Session ID is required"
                                          "MISSING_SESSION_ID" None)), w))
   \/ (exists s,
         validateSession paramsId bodySessionId = inr s
         /\ getSessionHistoryRoute paramsId bodySessionId w
            = (Ok (mkResponse 500 (ErrorBody "Failed to retrieve session history"
                                             "HISTORY_ERROR" None)), w)))
  /\ (forall response,
        fst (getSessionHistoryRoute paramsId bodySessionId w) = Ok response ->
        res_status response <> 200%Z).
Proof.
  assert (Hcases :
    (exists refused,
        validateSession paramsId bodySessionId = inl refused
        /\ getSessionHistoryRoute paramsId bodySessionId w
           = (Ok (mkResponse 400 (ErrorBody "Session ID is required"
                                            "MISSING_SESSION_ID" None)), w))
    \/ (exists s,
          validateSession paramsId bodySessionId = inr s
          /\ getSessionHistoryRoute paramsId bodySessionId w
             = (Ok (mkResponse 500 (ErrorBody "Failed to retrieve session history"
                                              "HISTORY_ERROR" None)), w))).
  { unfold getSessionHistoryRoute.
    destruct (validateSession paramsId bodySessionId) as [refused|s] eqn:Hv.
    - left. exists refused. split; [reflexivity|].
      now rewrite (validateSession_inl _ _ _ Hv).
    - right. exists s. split; [reflexivity|].
      pose proof (validateSession_inr _ _ _ Hv) as Hid.
      unfold tryCatch, bind, notAFunction, throw.
      rewrite getHistory_cases, Hid. reflexivity. }
  split; [exact Hcases|].
  intros response Hrun.
  destruct Hcases as [(refused & _ & Heq) | (s & _ & Heq)];
    rewrite Heq in Hrun; simpl in Hrun; injection Hrun as <-; discriminate.
Qed.

Lemma getQueryCacheCount_state (w : World) :
  exists n, getQueryCacheCount w = (Ok n, w).
Proof.
  unfold getQueryCacheCount, tryCatch, bind, gets, ret, client_keys_queries.
  destruct (isConnected w); simpl; [|eauto].
  destruct (clientReady w); simpl; eauto.
Qed.

Lemma healthCheck_runs `{Collaborators} (w : World) :
  exists health w',
    healthCheck w = (Ok health, w')
    /\ isConnected w' = isConnected w /\ clientReady w' = clientReady w
    /\ now w' = now w /\ sessions w' = sessions w.
Proof.
  assert (Hsafe : safe healthCheck).
  { apply safe_tryCatch. intros e w0. unfold bind, gets, ret. simpl. eauto. }
  assert (Hkeeps : forall (C : Type) (f : World -> C), blind f -> keeps f healthCheck).
  { intros C f Hf. unfold healthCheck. apply keeps_tryCatch.
    - apply keeps_bind; [now apply keeps_loadEmbedder|]. intros _.
      apply keeps_bind; [now apply keeps_getCollection|]. intros _.
      apply keeps_bind; [apply keeps_gets | intros; apply keeps_ret].
    - intros e. apply keeps_bind; [apply keeps_gets | intros; apply keeps_ret]. }
  destruct (Hsafe w) as [health Hrun].
  destruct (healthCheck w) as [r w'] eqn:Hhc. simpl in Hrun. subst r.
  exists health, w'. split; [reflexivity|].
  pose proof (Hkeeps _ isConnected ltac:(easy) w) as H1.
  pose proof (Hkeeps _ clientReady ltac:(easy) w) as H2.
  pose proof (Hkeeps _ now ltac:(easy) w) as H3.
  pose proof (Hkeeps _ sessions ltac:(easy) w) as H4.
  rewrite Hhc in H1, H2, H3, H4. now repeat split.
Qed.

(** X22. [GET /health] always answers 200 with the status [ok], whatever is
    down: the health check of the chatbot and the two counts never throw, so
    the 503 answer is never sent. The cache is reported healthy exactly when
    the link is up, and the number of active sessions is the number of session
    entries then and 0 otherwise. *)
Theorem getHealth_always_ok `{Collaborators} (w : World) :
  exists chatbot redisStatus activeSessions cachedQueries,
    fst (getHealth w)
    = Ok (mkResponse 200 (HealthBody "ok" (now w) chatbot redisStatus
                                     activeSessions cachedQueries))
    /\ (redisStatus = "healthy" <-> isConnected w = true /\ clientReady w = true)
    /\ (activeSessions = if isConnected w && clientReady w then size (sessions w) else 0).
Proof.
  unfold getHealth, tryCatch, bind at 1.
  destruct (healthCheck_runs w) as (health & w1 & -> & Hc & Hr & Hn & Hs).
  unfold bind at 1. rewrite getSessionCount_formula.
  unfold bind at 1. destruct (getQueryCacheCount_state w1) as [n ->].
  unfold bind, gets, ret, isHealthy. simpl. rewrite Hc, Hr, Hn, Hs.
  eexists _, _, _, _. split; [reflexivity|]. split; [|reflexivity].
  destruct (isConnected w), (clientReady w); simpl; split; try discriminate;
    try reflexivity; try (intros [? ?]; discriminate); now split.
Qed.

Lemma getContextForRAG_formula (sessionId : string) (maxMessages : Z) (w : World) :
  getContextForRAG sessionId maxMessages w
  = if missing sessionId then (Throw sessionIdRequired, w)
    else (Ok (map turnOf (Js.slice (- maxMessages)
                            (if isConnected w && clientReady w
                             then storedLog sessionId w else []))), w).
Proof.
  unfold getContextForRAG, bind, ret. rewrite getHistory_cases.
  now destruct (missing sessionId).
Qed.

Lemma addMessage_formula `{Collaborators} (sessionId role content : string)
    (metadata : MessageMeta) (w : World) :
  missing sessionId = false ->
  addMessage sessionId role content metadata w
  = let w1 := setUuids (S (uuids w)) w in
    if negb (isConnected w) then (Ok [], w1)
    else if clientReady w then
      let log := Js.slice (-50)
                   (storedLog sessionId w
                    ++ [mkMessage role content metadata (uuidv4 (uuids w))
                                  (Some (now w))]) in
      (Ok log, setSessions (<[sessionId := (sessionTtl, log)]> (sessions w)) w1)
    else (Throw clientClosed, w1).
Proof.
  intros Hid. rewrite addMessage_cases, Hid, addToSessionHistory_cases. reflexivity.
Qed.

Lemma blank_iff (text : string) :
  Js.truthy (Some text) && Js.truthy (Some (Js.trim text)) = false
  <-> Js.trim text = EmptyString.
Proof.
  destruct text as [|c text]; [split; reflexivity|].
  simpl Js.truthy at 1. rewrite andb_true_l.
  destruct (Js.trim (String c text)); split; try reflexivity; discriminate.
Qed.

(** X23. [POST /chat] always answers: with a 400 exactly when the message is
    missing or blank, in which case nothing at all has changed (no session is
    created, no call is made), and otherwise with a 200 or with a 500. *)
Theorem postChat_answers `{Collaborators} (NODE_ENV message sessionId : option string)
    (w : World) :
  exists response,
    fst (postChat NODE_ENV message sessionId w) = Ok response
    /\ (res_status response = 200 \/ res_status response = 400
        \/ res_status response = 500)%Z
    /\ (res_status response = 400%Z <-> blankMessage message)
    /\ (blankMessage message ->
        postChat NODE_ENV message sessionId w
        = (Ok (mkResponse 400 (ErrorBody "Message is required" "MISSING_MESSAGE" None)),
           w)).
Proof.
  unfold postChat, tryCatch.
  destruct message as [text|]; simpl blankMessage;
    [|eexists; split; [reflexivity|]; simpl; split; [right; now left|];
      split; [split; trivial | reflexivity]].
  destruct (Js.truthy (Some text) && Js.truthy (Some (Js.trim text))) eqn:Hblank.
  - assert (Hnot : Js.trim text <> EmptyString).
    { intros Hb. apply blank_iff in Hb. congruence. }
    cbn [negb].
    match goal with
    | |- context [match ?body w with _ => _ end] =>
        destruct (body w) as [[x|e] w'] eqn:Hbody
    end.
    + apply bind_Ok_inv in Hbody as (cid & w1 & _ & Hbody).
      apply bind_Ok_inv in Hbody as (hist & w2 & _ & Hbody).
      apply bind_Ok_inv in Hbody as (log1 & w3 & _ & Hbody).
      apply bind_Ok_inv in Hbody as (ans & w4 & _ & Hbody).
      apply bind_Ok_inv in Hbody as (log2 & w5 & _ & Hbody).
      apply bind_Ok_inv in Hbody as (t & w6 & _ & Hbody).
      injection Hbody as <- _.
      eexists. split; [reflexivity|]. simpl. split; [now left|].
      split; [split; [discriminate | intros Hb; contradiction]|intros Hb; contradiction].
    + eexists. split; [reflexivity|]. simpl. split; [right; now right|].
      split; [split; [discriminate | intros Hb; contradiction]|intros Hb; contradiction].
  - apply blank_iff in Hblank. cbn [negb].
    eexists. split; [reflexivity|]. simpl. split; [right; now left|].
    split; [split; trivial | reflexivity].
Qed.

Lemma postChat_answers_witness :
  postChat (H := demoCollaborators) None (Some "   ") (Some "s") linkUp
  = (Ok (mkResponse 400 (ErrorBody "Message is required" "MISSING_MESSAGE" None)),
     linkUp).
Proof.
  destruct (postChat_answers (H := demoCollaborators) None (Some "   ") (Some "s") linkUp)
    as (response & _ & _ & _ & Hblank).
  apply Hblank. reflexivity.
Defined.

Lemma storedLog_same_sessions (sessionId : string) (w w' : World) :
  sessions w' = sessions w -> storedLog sessionId w' = storedLog sessionId w.
Proof. unfold storedLog. now intros ->. Qed.

Lemma length_slice_neg {A : Type} (n : nat) (l : list A) :
  length (Js.slice (- Z.of_nat (S n)) l) <= S n.
Proof. rewrite slice_last, length_drop. lia. Qed.

(** With the link up, adding a message to a session puts it at the end of
    the log of that session. *)
Lemma addMessage_up `{Collaborators} (sessionId role content : string)
    (metadata : MessageMeta) (w w' : World) (log : list Message) :
  isConnected w = true -> clientReady w = true ->
  addMessage sessionId role content metadata w = (Ok log, w') ->
  storedLog sessionId w'
  = Js.slice (-50) (storedLog sessionId w
                    ++ [mkMessage role content metadata (uuidv4 (uuids w)) (Some (now w))])
  /\ isConnected w' = true /\ clientReady w' = true /\ now w' = now w.
Proof.
  intros Hc Hr. destruct (missing sessionId) eqn:Hid.
  - rewrite addMessage_cases, Hid. discriminate.
  - rewrite (addMessage_formula _ _ _ _ _ Hid), Hc, Hr. cbv zeta. cbn [negb].
    intros [= <- <-]. unfold storedLog at 1. simpl. rewrite lookup_insert_eq.
    now repeat split.
Qed.

(** X24. With the link up, a [POST /chat] that answers 200 has stored both
    turns: the log of the session of the answer ends with the user's message
    (trimmed) followed by the assistant's message, whose content is the
    response sent and whose metadata are the sources and the token usage sent,
    each with the time stamp its own append gave it. The conversation handed to the
    pipeline was read before the user's message was stored and has at most 5
    turns, and the session of the answer is the one of the request when the
    request names one. *)
Theorem postChat_stores_both_turns `{Collaborators} (NODE_ENV : option string)
    (text : string) (sessionId : option string) (w : World)
    (cid response : string) (sources : list Source) (usage : option UsageMetadata)
    (t : string) (n : nat) :
  isConnected w = true -> clientReady w = true ->
  fst (postChat NODE_ENV (Some text) sessionId w)
  = Ok (mkResponse 200 (ChatBody cid response sources usage t n)) ->
  let w' := snd (postChat NODE_ENV (Some text) sessionId w) in
  (exists older idUser idAssistant stampUser stampAssistant,
     storedLog cid w'
     = older ++ [mkMessage "user" (Js.trim text) emptyMeta idUser (Some stampUser);
                 mkMessage "assistant" response (mkMessageMeta (Some sources) usage)
                           idAssistant (Some stampAssistant)])
  /\ n = length (Js.slice (-5) (storedLog cid w))
  /\ n <= 5
  /\ (forall s, sessionId = Some s -> s <> EmptyString -> cid = s).
Proof.
  intros Hc Hr. unfold postChat, tryCatch.
  destruct (Js.truthy (Some text) && Js.truthy (Some (Js.trim text))); cbn [negb];
    [|discriminate].
  match goal with
  | |- context [match ?body w with _ => _ end] =>
      destruct (body w) as [[x|e] w'] eqn:Hbody
  end; [|discriminate].
  cbn [fst snd]. intros [= ->].
  apply bind_Ok_inv in Hbody as (cid0 & w1 & Hcid & Hbody).
  assert (Hw1 : sessions w1 = sessions w /\ isConnected w1 = true
                /\ clientReady w1 = true /\ now w1 = now w
                /\ (forall s, sessionId = Some s -> s <> EmptyString -> cid0 = s)).
  { unfold SessionService.generateSessionId, bind, gets, modify, ret in Hcid.
    destruct sessionId as [s|].
    - destruct (Js.truthy (Some s)) eqn:Hs.
      + injection Hcid as <- <-.
        split; [reflexivity|]. split; [assumption|]. split; [assumption|].
        split; [reflexivity|]. now intros s' [= <-] _.
      + injection Hcid as <- <-. simpl.
        split; [reflexivity|]. split; [assumption|]. split; [assumption|].
        split; [reflexivity|]. intros s' [= <-] Hne.
        destruct s; [congruence | discriminate Hs].
    - injection Hcid as <- <-. simpl.
      split; [reflexivity|]. split; [assumption|]. split; [assumption|].
      split; [reflexivity|]. intros s' Hs'. discriminate Hs'. }
  destruct Hw1 as (Hs1 & Hc1 & Hr1 & Hn1 & Hsid).
  apply bind_Ok_inv in Hbody as (hist & w2 & Hhist & Hbody).
  rewrite getContextForRAG_formula in Hhist.
  destruct (missing cid0); [discriminate|]. injection Hhist as Hhist <-.
  apply bind_Ok_inv in Hbody as (log1 & w3 & Hadd1 & Hbody).
  destruct (addMessage_up _ _ _ _ _ _ _ Hc1 Hr1 Hadd1) as (Hlog3 & Hc3 & Hr3 & Hn3).
  apply bind_Ok_inv in Hbody as (ans & w4 & Hpq & Hbody).
  assert (Hw4 : sessions w4 = sessions w3 /\ isConnected w4 = true
                /\ clientReady w4 = true /\ now w4 = now w).
  { pose proof (keeps_processQuery sessions ltac:(easy) (Js.trim text) hist w3) as K1.
    pose proof (keeps_processQuery isConnected ltac:(easy) (Js.trim text) hist w3) as K2.
    pose proof (keeps_processQuery clientReady ltac:(easy) (Js.trim text) hist w3) as K3.
    pose proof (keeps_processQuery now ltac:(easy) (Js.trim text) hist w3) as K4.
    rewrite Hpq in K1, K2, K3, K4. simpl in K1, K2, K3, K4.
    repeat split; congruence. }
  destruct Hw4 as (Hs4 & Hc4 & Hr4 & Hn4).
  apply bind_Ok_inv in Hbody as (log2 & w5 & Hadd2 & Hbody).
  destruct (addMessage_up _ _ _ _ _ _ _ Hc4 Hr4 Hadd2) as (Hlog5 & Hc5 & Hr5 & Hn5).
  apply bind_Ok_inv in Hbody as (t0 & w6 & Hnow & Hbody).
  unfold gets in Hnow. injection Hnow as <- <-.
  unfold ret in Hbody. injection Hbody as <- <- <- <- <- <- <-.
  split; [|split; [|split]].
  - rewrite Hlog5, (storedLog_same_sessions cid0 w3 w4 Hs4), Hlog3.
    rewrite (storedLog_same_sessions cid0 w w1 Hs1).
    rewrite slice_50_slice_50_app, <- app_assoc. cbn [app].
    rewrite slice_50, length_app. cbn [length].
    rewrite drop_app_le by lia. eauto 6.
  - rewrite <- Hhist, length_map, Hc1, Hr1. cbn [andb].
    now rewrite (storedLog_same_sessions cid0 w w1 Hs1).
  - rewrite <- Hhist, length_map. apply (length_slice_neg 4).
  - exact Hsid.
Qed.

Lemma postChat_stores_both_turns_witness :
  exists sources older idUser idAssistant stampUser stampAssistant,
    storedLog "s" (snd (postChat (H := demoCollaborators) None (Some " hi ") (Some "s")
                                 linkUp))
    = older ++ [mkMessage "user" (Js.trim " hi ") emptyMeta idUser (Some stampUser);
                mkMessage "assistant" "answer" (mkMessageMeta (Some sources) None)
                          idAssistant (Some stampAssistant)].
Proof.
  eexists.
  refine (proj1 (postChat_stores_both_turns (H := demoCollaborators) None " hi "
                   (Some "s") linkUp "s" "answer" _ None _ _ eq_refl eq_refl _)).
  vm_compute. reflexivity.
Defined.


